(** * Seinfeld API: the request handler of [index.js], embedded and verified

    The server of [index.js] keeps three tables read from JSON files
    ([characters], [episodes], [quotes]) and answers every request through
    [handleRequest].  This file embeds the handler and its helpers as Rocq
    functions and proves the properties the specification states about them.

    Conventions of the embedding.
    - JavaScript values are the values JSON.parse can build, plus
      [undefined] (what a missing property reads as) and the three
      non-finite numbers the handler can compute.  A number [NInt z] is
      the double whose value is the integer [z]; numerals with a fractional
      part are outside the embedding.
    - Strings are Rocq strings: sequences of code units below 256.
    - An object is the list of its own properties in enumeration order.
    - A JavaScript exception is the [Throw] outcome of the [Result] monad;
      code that writes to the response or draws a random number runs in the
      state monad [M] over [World].
    - The response body is kept as the value handed to JSON.stringify. *)

From Stdlib Require Import ZArith List String Ascii Bool Lia QArith Qround.
From Stdlib Require Import Numbers.DecimalString Numbers.DecimalPos.
Import ListNotations.

Local Open Scope string_scope.
Local Open Scope Z_scope.

#[local] Set Warnings "-register-all".

(** ** Values *)

Inductive number : Type :=
| NInt (z : Z)
| NNaN
| NPosInf
| NNegInf.

Inductive value : Type :=
| VUndefined
| VNull
| VBool (b : bool)
| VNum (n : number)
| VStr (s : string)
| VArr (items : list value)
| VObj (props : list (string * value)).

(** A value of the parsed query string: a key that is absent, given once,
    or given several times (url.parse with its second argument [true]
    collects repeated keys into an array). *)
Inductive qvalue : Type :=
| QUndef
| QStr (s : string)
| QArr (ss : list string).

Inductive error : Type :=
| TypeError
| ReferenceError.

(** ** Outcomes of evaluation *)

Inductive Result (A : Type) : Type :=
| Ok (a : A)
| Throw (e : error).

Arguments Ok {A} a.
Arguments Throw {A} e.

Definition rbind {A B : Type} (r : Result A) (k : A -> Result B) : Result B :=
  match r with
  | Ok a => k a
  | Throw e => Throw e
  end.

Declare Scope result_scope.
Delimit Scope result_scope with result.
Notation "'let?' x ':=' r 'in' k" := (rbind r (fun x => k))
  (at level 10, x name, r at level 100, k at level 200) : result_scope.

(** ** Strings *)

Definition code (c : ascii) : Z := Z.of_nat (nat_of_ascii c).

Definition is_upper (c : ascii) : bool :=
  let n := code c in
  ((65 <=? n) && (n <=? 90)) || ((192 <=? n) && (n <=? 222) && negb (n =? 215)).

Definition lower_char (c : ascii) : ascii :=
  if is_upper c then ascii_of_nat (nat_of_ascii c + 32) else c.

(** String.prototype.toLowerCase on code units below 256. *)
Fixpoint toLowerCase (s : string) : string :=
  match s with
  | EmptyString => EmptyString
  | String c s' => String (lower_char c) (toLowerCase s')
  end.

(** String.prototype.includes: [needle] occurs in [hay]. *)
Fixpoint includes (hay needle : string) : bool :=
  match hay with
  | EmptyString => String.prefix needle EmptyString
  | String _ hay' => String.prefix needle hay || includes hay' needle
  end.

(** [s.split('/')]: the pieces between the separators, empty ones kept. *)
Fixpoint String_split (sep : ascii) (s : string) : list string :=
  match s with
  | EmptyString => [EmptyString]
  | String c s' =>
      if Ascii.eqb c sep then EmptyString :: String_split sep s'
      else match String_split sep s' with
           | [] => [String c EmptyString]
           | p :: ps => String c p :: ps
           end
  end.

Definition nonempty (s : string) : bool :=
  match s with
  | EmptyString => false
  | String _ _ => true
  end.

Fixpoint join (sep : string) (ss : list string) : string :=
  match ss with
  | [] => EmptyString
  | [s] => s
  | s :: ss' => s ++ sep ++ join sep ss'
  end.

(** ** Numbers *)

Definition Z_toString (z : Z) : string :=
  NilZero.string_of_int (Z.to_int z).

(** The double nearest to a non-negative integer, ties going to the even
    significand: below 2^53 every integer is a double, above it the 53
    leading bits are kept.  (No table holds an integer that overflows the
    doubles.) *)
Definition round_double (z : Z) : Z :=
  if z <? 2 ^ 53 then z
  else
    let e := Z.log2 z - 52 in
    let q := Z.shiftr z e in
    let r := z - Z.shiftl q e in
    let half := Z.shiftl 1 (e - 1) in
    let q' := if (half <? r) || ((r =? half) && Z.odd q) then q + 1 else q in
    Z.shiftl q' e.

(** The decimal with [k] significant digits that reads back as [x], if
    there is one: the nearer of the two neighbours of [x] among them. *)
Definition digits_at (x : Z) (k : nat) : option Z :=
  let n := String.length (Z_toString x) in
  let unit := 10 ^ Z.of_nat (n - k) in
  let lo := (x / unit) * unit in
  let hi := lo + unit in
  match round_double lo =? x, round_double hi =? x with
  | true, true =>
      if x - lo <? hi - x then Some lo
      else if hi - x <? x - lo then Some hi
      else if Z.even (x / unit) then Some lo else Some hi
  | true, false => Some lo
  | false, true => Some hi
  | false, false => None
  end.

(** The shortest decimal that reads back as [x]. *)
Fixpoint shortest_decimal (x : Z) (ks : list nat) : Z :=
  match ks with
  | [] => x
  | k :: ks' =>
      match digits_at x k with
      | Some c => c
      | None => shortest_decimal x ks'
      end
  end.

Fixpoint strip_trailing_zeros (s : string) : string :=
  match s with
  | EmptyString => EmptyString
  | String c s' =>
      match strip_trailing_zeros s' with
      | EmptyString => if Ascii.eqb c "0" then EmptyString else String c EmptyString
      | t => String c t
      end
  end.

(** The exponent notation of a positive integer: [d.ddd] and [e+n]. *)
Definition exponent_form (c : Z) : string :=
  let s := Z_toString c in
  let mantissa :=
    match strip_trailing_zeros s with
    | String d EmptyString => String d EmptyString
    | String d ds => String d (String "." ds)
    | EmptyString => EmptyString
    end in
  mantissa ++ "e+" ++ Z_toString (Z.of_nat (String.length s) - 1).

(** Number.prototype.toString.  An integer below 2^53 in magnitude is
    printed in full.  From there on the digits are those of the shortest
    decimal that identifies the number: followed by zeros below 10^21
    (2^64 is printed as 18446744073709552000), in exponent notation from
    10^21 on. *)
Definition Number_toString (n : number) : string :=
  match n with
  | NInt z =>
      if Z.abs z <? 2 ^ 53 then Z_toString z
      else
        let c := shortest_decimal (Z.abs z) (seq 1 17) in
        (if z <? 0 then "-" else EmptyString) ++
        (if Z.abs z <? 10 ^ 21 then Z_toString c else exponent_form c)
  | NNaN => "NaN"
  | NPosInf => "Infinity"
  | NNegInf => "-Infinity"
  end.

(** Strict equality of two numbers: NaN equals nothing. *)
Definition number_eqb (a b : number) : bool :=
  match a, b with
  | NInt x, NInt y => x =? y
  | NPosInf, NPosInf => true
  | NNegInf, NNegInf => true
  | _, _ => false
  end.

Definition is_StrWhiteSpaceChar (c : ascii) : bool :=
  let n := code c in
  ((9 <=? n) && (n <=? 13)) || (n =? 32) || (n =? 160).

Fixpoint trimStart (s : string) : string :=
  match s with
  | EmptyString => EmptyString
  | String c s' => if is_StrWhiteSpaceChar c then trimStart s' else s
  end.

(** The value of a code unit as a digit, letters counting from 10. *)
Definition digit_value (c : ascii) : option Z :=
  let n := code c in
  if (48 <=? n) && (n <=? 57) then Some (n - 48)
  else if (97 <=? n) && (n <=? 122) then Some (n - 87)
  else if (65 <=? n) && (n <=? 90) then Some (n - 55)
  else None.

(** The longest prefix of [s] made of radix-[R] digits, as digit values. *)
Fixpoint leading_digits (R : Z) (s : string) : list Z :=
  match s with
  | EmptyString => []
  | String c s' =>
      match digit_value c with
      | Some d => if d <? R then d :: leading_digits R s' else []
      | None => []
      end
  end.

Definition mathInt (R : Z) (ds : list Z) : Z :=
  fold_left (fun acc d => acc * R + d) ds 0.

Definition strip_sign (s : string) : Z * string :=
  match s with
  | String "-" s' => (-1, s')
  | String "+" s' => (1, s')
  | _ => (1, s)
  end.

Definition hex_prefixed (s : string) : bool :=
  match s with
  | String "0" (String "x" _) => true
  | String "0" (String "X" _) => true
  | _ => false
  end.

(** [parseInt(s)] with no radix argument: leading white space is dropped,
    a sign is read, a [0x] or [0X] prefix selects radix 16, and the longest
    run of digits is the result; no digit at all gives NaN.  The result
    is the integer the digits denote; the language gives the double
    nearest to it, which is that integer up to 2^53. *)
Definition parseInt (s : string) : number :=
  let (sign, body) := strip_sign (trimStart s) in
  let (R, digits) :=
    if hex_prefixed body
    then (16, match body with
              | String _ (String _ rest) => rest
              | _ => body
              end)
    else (10, body) in
  match leading_digits R digits with
  | [] => NNaN
  | ds => NInt (sign * mathInt R ds)
  end.

Fixpoint trimEnd (s : string) : string :=
  match s with
  | EmptyString => EmptyString
  | String c s' =>
      match trimEnd s' with
      | EmptyString => if is_StrWhiteSpaceChar c then EmptyString else String c EmptyString
      | t => String c t
      end
  end.

(** Every code unit of [s] is a radix-[R] digit, and there is one. *)
Definition all_digits (R : Z) (s : string) : bool :=
  nonempty s && (Nat.eqb (List.length (leading_digits R s)) (String.length s)).

(** StringToNumber of the language, on the literals whose value is an
    integer or an infinity: white space around, the empty string (zero),
    signed decimal digits, [0x], [0o] and [0b] literals.  Every other string
    is NaN there, except the literals with a fraction or an exponent, whose
    value the number type above does not hold; they read as NaN here. *)
Definition StringToNumber (s : string) : number :=
  let t := trimEnd (trimStart s) in
  match t with
  | EmptyString => NInt 0
  | String "0" (String p rest) =>
      let radix :=
        if (Ascii.eqb p "x" || Ascii.eqb p "X")%bool then 16
        else if (Ascii.eqb p "o" || Ascii.eqb p "O")%bool then 8
        else if (Ascii.eqb p "b" || Ascii.eqb p "B")%bool then 2
        else 0 in
      if radix =? 0
      then if all_digits 10 t then NInt (mathInt 10 (leading_digits 10 t)) else NNaN
      else if all_digits radix rest
           then NInt (mathInt radix (leading_digits radix rest)) else NNaN
  | _ =>
      let (sign, body) := strip_sign t in
      if String.eqb body "Infinity" then (if sign <? 0 then NNegInf else NPosInf)
      else if all_digits 10 body then NInt (sign * mathInt 10 (leading_digits 10 body))
      else NNaN
  end.

(** The order of numbers that are not NaN. *)
Definition number_leb (a b : number) : bool :=
  match a, b with
  | NNaN, _ | _, NNaN => false
  | NNegInf, _ => true
  | _, NPosInf => true
  | NInt x, NInt y => x <=? y
  | _, _ => false
  end.

(** ** Operations on values *)

Definition has_own (props : list (string * value)) (k : string) : bool :=
  existsb (fun p => String.eqb (fst p) k) props.

Fixpoint lookup {A : Type} (props : list (string * A)) (k : string) : option A :=
  match props with
  | [] => None
  | (k', v) :: props' => if String.eqb k' k then Some v else lookup props' k
  end.

(** [v.k] for the property names the handlers read ([id], [name],
    [season], [character]): no prototype defines them, so only an object's
    own property answers; reading a property of [null] or [undefined]
    throws. *)
Definition get_prop (v : value) (k : string) : Result value :=
  match v with
  | VUndefined | VNull => Throw TypeError
  | VObj props =>
      match lookup props k with
      | Some x => Ok x
      | None => Ok VUndefined
      end
  | _ => Ok VUndefined
  end.

Fixpoint chars (s : string) : list string :=
  match s with
  | EmptyString => []
  | String c s' => String c EmptyString :: chars s'
  end.

(** Object.values: the values of the own enumerable properties. *)
Definition Object_values (v : value) : Result (list value) :=
  match v with
  | VUndefined | VNull => Throw TypeError
  | VObj props => Ok (map snd props)
  | VArr items => Ok items
  | VStr s => Ok (map VStr (chars s))
  | VBool _ | VNum _ => Ok []
  end.

(** The conversion of a value to a string.  An array joins the conversions
    of its elements with commas, [null] and [undefined] elements counting
    as empty; an object answers through Object.prototype.toString unless it
    has a [toString] property of its own, which parsed data cannot call. *)
Fixpoint ToString (v : value) : Result string :=
  match v with
  | VUndefined => Ok "undefined"
  | VNull => Ok "null"
  | VBool true => Ok "true"
  | VBool false => Ok "false"
  | VNum n => Ok (Number_toString n)
  | VStr s => Ok s
  | VArr items =>
      (fix join_items (l : list value) : Result string :=
         match l with
         | [] => Ok EmptyString
         | x :: l' =>
             let? a := match x with
                       | VUndefined | VNull => Ok EmptyString
                       | _ => ToString x
                       end in
             match l' with
             | [] => Ok a
             | _ => let? b := join_items l' in Ok (a ++ "," ++ b)
             end
         end%result) items
  | VObj props =>
      if has_own props "toString" then Throw TypeError else Ok "[object Object]"
  end.

(** [v.toString()]: the method call, which [null] and [undefined] lack. *)
Definition toString_method (v : value) : Result string :=
  match v with
  | VUndefined | VNull => Throw TypeError
  | _ => ToString v
  end.

(** [v.toLowerCase()]: only a string has the method. *)
Definition toLowerCase_method (v : value) : Result string :=
  match v with
  | VStr s => Ok (toLowerCase s)
  | _ => Throw TypeError
  end.

(** The conversion of a value to a number, as Math.max applies it. *)
Definition ToNumber (v : value) : Result number :=
  match v with
  | VUndefined => Ok NNaN
  | VNull => Ok (NInt 0)
  | VBool true => Ok (NInt 1)
  | VBool false => Ok (NInt 0)
  | VNum n => Ok n
  | VStr s => Ok (StringToNumber s)
  | VArr _ | VObj _ => (let? s := ToString v in Ok (StringToNumber s))%result
  end.

Definition ToBoolean (v : value) : bool :=
  match v with
  | VUndefined | VNull => false
  | VBool b => b
  | VNum (NInt z) => negb (z =? 0)
  | VNum NNaN => false
  | VNum _ => true
  | VStr s => nonempty s
  | VArr _ | VObj _ => true
  end.

(** [v === n] for a number [n]. *)
Definition strict_eq_number (v : value) (n : number) : bool :=
  match v with
  | VNum m => number_eqb m n
  | _ => false
  end.

Fixpoint indexed {A : Type} (i : Z) (l : list A) : list (string * A) :=
  match l with
  | [] => []
  | x :: l' => (Z_toString i, x) :: indexed (i + 1) l'
  end.

(** The properties [{...v}] copies. *)
Definition spread (v : value) : list (string * value) :=
  match v with
  | VObj props => props
  | VArr items => indexed 0 items
  | VStr s => indexed 0 (map VStr (chars s))
  | _ => []
  end.

(** Assignment of a property in an object literal: an existing key keeps
    its place, a new one goes last. *)
Fixpoint set_prop (props : list (string * value)) (k : string) (v : value)
  : list (string * value) :=
  match props with
  | [] => [(k, v)]
  | (k', v') :: props' =>
      if String.eqb k' k then (k, v) :: props' else (k', v') :: set_prop props' k v
  end.

(** ** Array methods, with callbacks that may throw *)

Fixpoint Array_filter {A : Type} (cb : A -> Result bool) (l : list A) : Result (list A) :=
  match l with
  | [] => Ok []
  | x :: l' =>
      (let? keep := cb x in
       let? rest := Array_filter cb l' in
       Ok (if keep then x :: rest else rest))%result
  end.

Fixpoint Array_some {A : Type} (cb : A -> Result bool) (l : list A) : Result bool :=
  match l with
  | [] => Ok false
  | x :: l' => (let? hit := cb x in if hit then Ok true else Array_some cb l')%result
  end.

Fixpoint Array_find (cb : value -> Result bool) (l : list value) : Result value :=
  match l with
  | [] => Ok VUndefined
  | x :: l' => (let? hit := cb x in if hit then Ok x else Array_find cb l')%result
  end.

Fixpoint Array_map {A B : Type} (cb : A -> Result B) (l : list A) : Result (list B) :=
  match l with
  | [] => Ok []
  | x :: l' =>
      (let? y := cb x in
       let? rest := Array_map cb l' in
       Ok (y :: rest))%result
  end.

(** [array[i]]. *)
Definition index (array : list value) (i : Z) : value :=
  if i <? 0 then VUndefined else nth (Z.to_nat i) array VUndefined.

Definition number_max (a b : number) : number :=
  match a, b with
  | NNaN, _ | _, NNaN => NNaN
  | _, _ => if number_leb a b then b else a
  end.

(** Math.max: every argument is converted, in order; no argument gives
    minus infinity and a NaN among them gives NaN. *)
Definition Math_max (args : list value) : Result number :=
  (let? ns := Array_map ToNumber args in
   Ok (fold_left number_max ns NNegInf))%result.

(** ** The world of a request *)

(** The response object: what writeHead recorded, whether end() was called,
    and the body it was called with ([None] for no body). *)
Record ServerResponse : Type := mkServerResponse {
  head : option (Z * list (string * string));
  ended : bool;
  body : option value
}.

(** The module state a handler can reach: the three tables filled by
    loadData, the response under construction, and the random source. *)
Record World : Type := mkWorld {
  characters : list value;
  episodes : list value;
  quotes : list value;
  res : ServerResponse;
  rng : nat -> Q;
  drawn : nat
}.

(** A request as the handler reads it: the method, and the two parts of
    [url.parse(req.url, true)] it uses, the path and the parsed query.
    The path is [null] ([None]) when the request target has none. *)
Record Request : Type := mkRequest {
  method : string;
  pathname : option string;
  query : list (string * qvalue)
}.

Definition M (A : Type) : Type := World -> Result A * World.

Definition ret {A : Type} (a : A) : M A := fun w => (Ok a, w).

Definition bind {A B : Type} (m : M A) (k : A -> M B) : M B :=
  fun w =>
    match m w with
    | (Ok a, w') => k a w'
    | (Throw e, w') => (Throw e, w')
    end.

Definition lift {A : Type} (r : Result A) : M A := fun w => (r, w).

Definition gets {A : Type} (f : World -> A) : M A := fun w => (Ok (f w), w).

Declare Scope handler_scope.
Delimit Scope handler_scope with handler.
Notation "x <- m ;; k" := (bind m (fun x => k))
  (at level 61, m at next level, right associativity) : handler_scope.
Notation "m ;; k" := (bind m (fun _ => k))
  (at level 61, right associativity) : handler_scope.

Definition set_res (r : ServerResponse) (w : World) : World :=
  mkWorld (characters w) (episodes w) (quotes w) r (rng w) (drawn w).

(** [res.writeHead(statusCode, headers)]. *)
Definition writeHead (statusCode : Z) (hs : list (string * string)) : M unit :=
  fun w => (Ok tt, set_res (mkServerResponse (Some (statusCode, hs)) (ended (res w)) (body (res w))) w).

(** [res.end(data)]. *)
Definition end_ (data : option value) : M unit :=
  fun w => (Ok tt, set_res (mkServerResponse (head (res w)) true data) w).

(** [Math.random()]: the next number of the source. *)
Definition Math_random : M Q :=
  fun w => (Ok (rng w (drawn w)),
            mkWorld (characters w) (episodes w) (quotes w) (res w) (rng w) (S (drawn w))).

(** [catchphrases]: an identifier no declaration binds. *)
Definition catchphrases : M (list value) := lift (Throw ReferenceError).

(** JSON.stringify gives [undefined] for [undefined] and a text for every
    other value; the text is represented by the value. *)
Definition JSON_stringify (data : value) : option value :=
  match data with
  | VUndefined => None
  | _ => Some data
  end.

Definition length_of {A : Type} (l : list A) : value :=
  VNum (NInt (Z.of_nat (List.length l))).

Definition query_get (q : list (string * qvalue)) (k : string) : qvalue :=
  match lookup q k with
  | Some v => v
  | None => QUndef
  end.

Definition qtruthy (q : qvalue) : bool :=
  match q with
  | QUndef => false
  | QStr s => nonempty s
  | QArr _ => true
  end.

Definition qToString (q : qvalue) : string :=
  match q with
  | QUndef => "undefined"
  | QStr s => s
  | QArr ss => join "," ss
  end.

(** [q.toLowerCase()] for a query value: an array has no such method. *)
Definition qtoLowerCase (q : qvalue) : Result string :=
  match q with
  | QStr s => Ok (toLowerCase s)
  | _ => Throw TypeError
  end.

(** ** Helper functions of the source *)

Definition cors_headers : list (string * string) :=
  [("Access-Control-Allow-Origin", "*");
   ("Access-Control-Allow-Methods", "GET, POST, PUT, DELETE, OPTIONS");
   ("Access-Control-Allow-Headers", "Content-Type")].

(** [sendJSON] and [sendError]; the status code is always passed here,
    as 200 and 404 where the source relies on the default. *)
Definition sendJSON (data : value) (statusCode : Z) : M unit :=
  (writeHead statusCode (("Content-Type", "application/json") :: cors_headers) ;;
   end_ (JSON_stringify data))%handler.

Definition sendError (message : string) (statusCode : Z) : M unit :=
  sendJSON (VObj [("error", VStr message)]) statusCode.

Definition getRandomItem (array : list value) : M value :=
  (r <- Math_random ;;
   ret (index array (Qfloor (r * inject_Z (Z.of_nat (List.length array))))))%handler.

Definition filterByQuery (array : list value) (q : qvalue) : Result (list value) :=
  if negb (qtruthy q) then Ok array
  else
    Array_filter (fun item =>
      let? values := Object_values item in
      Array_some (fun v =>
        let? s := toString_method v in
        let? needle := qtoLowerCase q in
        Ok (includes (toLowerCase s) needle)) values)%result array.

(** ** Route handlers *)

Definition handleCharacters (pathParts : list string) (q : list (string * qvalue)) : M unit :=
  match pathParts with
  | [_; _] =>
      (cs <- gets characters ;;
       filtered <- lift (filterByQuery cs (query_get q "search")) ;;
       sendJSON (VObj [("total", length_of filtered); ("characters", VArr filtered)]) 200)%handler
  | [_; _; seg] =>
      if String.eqb seg "random" then
        (cs <- gets characters ;;
         item <- getRandomItem cs ;;
         sendJSON item 200)%handler
      else
        let id := parseInt seg in
        (cs <- gets characters ;;
         character <- lift (Array_find (fun c =>
                              let? cid := get_prop c "id" in
                              Ok (strict_eq_number cid id))%result cs) ;;
         if ToBoolean character then
           (qs <- gets quotes ;;
            characterQuotes <- lift (Array_filter (fun qt =>
                                 let? who := get_prop qt "character" in
                                 let? hay := toLowerCase_method who in
                                 let? name := get_prop character "name" in
                                 let? needle := toLowerCase_method name in
                                 Ok (includes hay needle))%result qs) ;;
            sendJSON (VObj (set_prop (spread character) "quotes" (VArr characterQuotes))) 200)
         else sendError "Character not found" 404)%handler
  | _ => sendError "Invalid characters endpoint" 404
  end.

Definition handleEpisodes (pathParts : list string) (q : list (string * qvalue)) : M unit :=
  match pathParts with
  | [_; _] =>
      (eps <- gets episodes ;;
       bySeason <- (if qtruthy (query_get q "season")
                    then lift (Array_filter (fun ep =>
                                 let? s := get_prop ep "season" in
                                 Ok (strict_eq_number s (parseInt (qToString (query_get q "season")))))%result
                               eps)
                    else ret eps) ;;
       filtered <- lift (filterByQuery bySeason (query_get q "search")) ;;
       sendJSON (VObj [("total", length_of filtered); ("episodes", VArr filtered)]) 200)%handler
  | [_; _; seg] =>
      if String.eqb seg "random" then
        (eps <- gets episodes ;;
         item <- getRandomItem eps ;;
         sendJSON item 200)%handler
      else
        let id := parseInt seg in
        (eps <- gets episodes ;;
         episode <- lift (Array_find (fun ep =>
                            let? eid := get_prop ep "id" in
                            Ok (strict_eq_number eid id))%result eps) ;;
         if ToBoolean episode then sendJSON episode 200
         else sendError "Episode not found" 404)%handler
  | _ => sendError "Invalid episodes endpoint" 404
  end.

Definition handleQuotes (pathParts : list string) (q : list (string * qvalue)) : M unit :=
  match pathParts with
  | [_; _] =>
      (qs <- gets quotes ;;
       byCharacter <- (if qtruthy (query_get q "character")
                       then lift (Array_filter (fun qt =>
                                    let? who := get_prop qt "character" in
                                    let? hay := toLowerCase_method who in
                                    let? needle := qtoLowerCase (query_get q "character") in
                                    Ok (includes hay needle))%result qs)
                       else ret qs) ;;
       filtered <- lift (filterByQuery byCharacter (query_get q "search")) ;;
       sendJSON (VObj [("total", length_of filtered); ("quotes", VArr filtered)]) 200)%handler
  | [_; _; seg] =>
      if String.eqb seg "random" then
        (qs <- gets quotes ;;
         item <- getRandomItem qs ;;
         sendJSON item 200)%handler
      else
        let id := parseInt seg in
        (qs <- gets quotes ;;
         quote <- lift (Array_find (fun qt =>
                          let? qid := get_prop qt "id" in
                          Ok (strict_eq_number qid id))%result qs) ;;
         if ToBoolean quote then sendJSON quote 200
         else sendError "Quote not found" 404)%handler
  | _ => sendError "Invalid quotes endpoint" 404
  end.

Definition handleStats : M unit :=
  (cs <- gets characters ;;
   eps <- gets episodes ;;
   qs <- gets quotes ;;
   seasons <- lift (let? ss := Array_map (fun ep => get_prop ep "season") eps in
                    Math_max ss)%result ;;
   sendJSON (VObj [("totalCharacters", length_of cs);
                   ("totalEpisodes", length_of eps);
                   ("totalQuotes", length_of qs);
                   ("seasons", VNum seasons);
                   ("apiVersion", VStr "1.0.0")]) 200)%handler.

(** The handler of the catchphrases routes.  [handleRequest] below never
    calls it. *)
Definition handleCatchphrases (pathParts : list string) (q : list (string * qvalue)) : M unit :=
  match pathParts with
  | [_; _] =>
      (cps <- catchphrases ;;
       filtered <- lift (filterByQuery cps (query_get q "search")) ;;
       sendJSON (VObj [("total", length_of filtered); ("catchphrases", VArr filtered)]) 200)%handler
  | [_; _; seg] =>
      if String.eqb seg "random" then
        (cps <- catchphrases ;;
         item <- getRandomItem cps ;;
         sendJSON item 200)%handler
      else
        let id := parseInt seg in
        (cps <- catchphrases ;;
         phrase <- lift (Array_find (fun p =>
                           let? pid := get_prop p "id" in
                           Ok (strict_eq_number pid id))%result cps) ;;
         if ToBoolean phrase then sendJSON phrase 200
         else sendError "Catchphrase not found" 404)%handler
  | _ => sendError "Invalid catchphrases endpoint" 404
  end.

(** The object served at the root path. *)
Definition documentation : value :=
  VObj
    [("message", VStr "Welcome to the Seinfeld API!");
     ("version", VStr "1.0.0");
     ("endpoints",
      VObj
        [("characters",
          VObj [("GET /api/characters", VStr "Get all characters");
                ("GET /api/characters/:id", VStr "Get character by ID");
                ("GET /api/characters/random", VStr "Get random character");
                ("Query params", VStr "?search=term")]);
         ("episodes",
          VObj [("GET /api/episodes", VStr "Get all episodes");
                ("GET /api/episodes/:id", VStr "Get episode by ID");
                ("GET /api/episodes/random", VStr "Get random episode");
                ("Query params", VStr "?season=1&search=term")]);
         ("quotes",
          VObj [("GET /api/quotes", VStr "Get all quotes");
                ("GET /api/quotes/:id", VStr "Get quote by ID");
                ("GET /api/quotes/random", VStr "Get random quote");
                ("Query params", VStr "?character=name&search=term")]);
         ("stats",
          VObj [("GET /api/stats", VStr "Get API statistics")])]);
     ("examples",
      VArr [VStr "/api/characters";
            VStr "/api/episodes?season=5";
            VStr "/api/quotes/random";
            VStr "/api/quotes?character=george"])].

(** ** Main request handler *)

(** [parsedUrl.pathname.split('/').filter(part => part)] for a path that
    is a string.  (For a [null] path the list is empty here; [handleRequest]
    leaves by a TypeError before it has any use for it.) *)
Definition pathParts_of (req : Request) : list string :=
  match pathname req with
  | Some path => filter nonempty (String_split "/" path)
  | None => []
  end.

(** The path is split first, before the method is looked at: calling
    [split] on a [null] path throws a TypeError. *)
Definition handleRequest (req : Request) : M unit :=
  match pathname req with
  | None => lift (Throw TypeError)
  | Some _ =>
      let pathParts := pathParts_of req in
      let q := query req in
      if String.eqb (method req) "OPTIONS" then
        (writeHead 200 cors_headers ;; end_ None)%handler
      else if negb (String.eqb (method req) "GET") then
        sendError "Method not allowed" 405
      else
        match pathParts with
        | [] => sendJSON documentation 200
        | root :: rest =>
            if String.eqb root "api" then
              match rest with
              | [] => sendError "Invalid API endpoint" 400
              | endpoint :: _ =>
                  if String.eqb endpoint "characters" then handleCharacters pathParts q
                  else if String.eqb endpoint "episodes" then handleEpisodes pathParts q
                  else if String.eqb endpoint "quotes" then handleQuotes pathParts q
                  else if String.eqb endpoint "stats" then handleStats
                  else sendError "Endpoint not found" 404
              end
            else sendError "Not found" 404
        end
  end.

(** ** Vocabulary of the statements *)

Definition json_headers : list (string * string) :=
  ("Content-Type", "application/json") :: cors_headers.

(** The response object after [sendJSON data statusCode], [data] defined. *)
Definition json_reply (statusCode : Z) (data : value) : ServerResponse :=
  mkServerResponse (Some (statusCode, json_headers)) true (Some data).

Definition error_body (message : string) : value :=
  VObj [("error", VStr message)].

(** Handling [req] in [w] returns normally and leaves the response [r]. *)
Definition responds (req : Request) (w : World) (r : ServerResponse) : Prop :=
  fst (handleRequest req w) = Ok tt /\ res (snd (handleRequest req w)) = r.

(** The three tables of a world. *)
Definition tables (w : World) : list value * list value * list value :=
  (characters w, episodes w, quotes w).

(** A computation that leaves the tables as it found them, whatever its
    outcome. *)
Definition preserves {A : Type} (m : M A) : Prop :=
  forall w, tables (snd (m w)) = tables w.

(** [l'] is [l] restricted to the elements that satisfy [P], in order. *)
Inductive restricts {A : Type} (P : A -> Prop) : list A -> list A -> Prop :=
| restricts_nil : restricts P [] []
| restricts_keep x l l' : P x -> restricts P l l' -> restricts P (x :: l) (x :: l')
| restricts_drop x l l' : ~ P x -> restricts P l l' -> restricts P (x :: l) l'.

(** The record [v] has the integer [n] as its [id]. *)
Definition has_id (n : Z) (v : value) : Prop :=
  get_prop v "id" = Ok (VNum (NInt n)).

(** The episode [v] has the integer [n] as its [season]. *)
Definition has_season (n : Z) (v : value) : Prop :=
  get_prop v "season" = Ok (VNum (NInt n)).

(** [needle] occurs in [hay] when case is ignored. *)
Definition ci_contains (hay needle : string) : Prop :=
  exists pre post, toLowerCase hay = pre ++ toLowerCase needle ++ post.

(** The quote [v] names, in its [character] field, a string that contains
    [name]. *)
Definition mentions (name : string) (v : value) : Prop :=
  exists who, get_prop v "character" = Ok (VStr who) /\ ci_contains who name.

(** Some field of the record [v] has a string form that contains [q]. *)
Definition matches (q : string) (v : value) : Prop :=
  exists props x s,
    v = VObj props /\ In x (map snd props) /\
    toString_method x = Ok s /\ ci_contains s q.

(** *** The data model

    The tables hold objects: a character has a string [name], an episode
    an integer [season], a quote a string [character].  A table is
    searchable when its records have no [null] field and every field has a
    string form. *)

Fixpoint convertible (v : value) : bool :=
  match v with
  | VArr items => forallb convertible items
  | VObj props => negb (has_own props "toString")
  | _ => true
  end.

Definition printable (v : value) : bool :=
  match v with
  | VUndefined | VNull => false
  | _ => convertible v
  end.

Definition is_object (v : value) : bool :=
  match v with
  | VObj _ => true
  | _ => false
  end.

Definition is_record (v : value) : bool :=
  match v with
  | VObj props => forallb printable (map snd props)
  | _ => false
  end.

Definition has_string (k : string) (v : value) : bool :=
  match v with
  | VObj props => match lookup props k with
                  | Some (VStr _) => true
                  | _ => false
                  end
  | _ => false
  end.

Definition has_integer (k : string) (v : value) : bool :=
  match v with
  | VObj props => match lookup props k with
                  | Some (VNum (NInt _)) => true
                  | _ => false
                  end
  | _ => false
  end.

Definition wf_character (v : value) : bool := has_string "name" v.
Definition wf_episode (v : value) : bool := has_integer "season" v.
Definition wf_quote (v : value) : bool := has_string "character" v.

Definition wf_dataset (w : World) : Prop :=
  forallb wf_character (characters w) = true /\
  forallb wf_episode (episodes w) = true /\
  forallb wf_quote (quotes w) = true.

Definition searchable (w : World) : Prop :=
  forallb is_record (characters w) = true /\
  forallb is_record (episodes w) = true /\
  forallb is_record (quotes w) = true.

(** A query parameter that is absent or given once. *)
Definition single (q : qvalue) : bool :=
  match q with
  | QArr _ => false
  | _ => true
  end.

(** The three resources with a by-id route. *)
Inductive resource : Type := Characters | Episodes | Quotes.

Definition root_of (r : resource) : string :=
  match r with
  | Characters => "characters"
  | Episodes => "episodes"
  | Quotes => "quotes"
  end.

Definition label_of (r : resource) : string :=
  match r with
  | Characters => "Character"
  | Episodes => "Episode"
  | Quotes => "Quote"
  end.

Definition table_of (r : resource) (w : World) : list value :=
  match r with
  | Characters => characters w
  | Episodes => episodes w
  | Quotes => quotes w
  end.

(** ** Example data *)

Definition jerry : value :=
  VObj [("id", VNum (NInt 1)); ("name", VStr "Jerry"); ("actor", VStr "Jerry Seinfeld")].
Definition george : value :=
  VObj [("id", VNum (NInt 2)); ("name", VStr "George"); ("actor", VStr "Jason Alexander")].
Definition pilot : value :=
  VObj [("id", VNum (NInt 1)); ("season", VNum (NInt 1)); ("title", VStr "The Seinfeld Chronicles")].
Definition ex_girlfriend : value :=
  VObj [("id", VNum (NInt 2)); ("season", VNum (NInt 2)); ("title", VStr "The Ex-Girlfriend")].
Definition stake_out : value :=
  VObj [("id", VNum (NInt 3)); ("season", VNum (NInt 1)); ("title", VStr "The Stake Out")].
Definition quote1 : value :=
  VObj [("id", VNum (NInt 1)); ("character", VStr "Jerry Seinfeld");
        ("text", VStr "What is the deal?")].
Definition quote2 : value :=
  VObj [("id", VNum (NInt 2)); ("character", VStr "George Costanza");
        ("text", VStr "I was in the pool!")].
Definition quote3 : value :=
  VObj [("id", VNum (NInt 3)); ("character", VStr "JERRY");
        ("text", VStr "Hello, Newman.")].

Definition fresh : ServerResponse := mkServerResponse None false None.

Definition sample : World :=
  mkWorld [jerry; george] [pilot; ex_girlfriend; stake_out] [quote1; quote2; quote3]
          fresh (fun _ => 0%Q) 0.

Definition GET (path : string) (q : list (string * qvalue)) : Request :=
  mkRequest "GET" (Some path) q.

(** ** Definitions for the statements and their proofs *)

(** The routes of the routing table, as lists of path segments: the root,
    a collection, a random pick or a by-id lookup under one of the three
    resources, the statistics, and the catchphrases routes the table lists. *)
Definition known_route (pathParts : list string) : bool :=
  match pathParts with
  | [] => true
  | [root; endpoint] =>
      String.eqb root "api" &&
      (String.eqb endpoint "characters" || String.eqb endpoint "episodes" ||
       String.eqb endpoint "quotes" || String.eqb endpoint "stats" ||
       String.eqb endpoint "catchphrases")
  | [root; endpoint; _] =>
      String.eqb root "api" &&
      (String.eqb endpoint "characters" || String.eqb endpoint "episodes" ||
       String.eqb endpoint "quotes" || String.eqb endpoint "catchphrases")
  | _ => false
  end.

(** The code unit [c] is one of 0 to 9. *)
Definition is_decimal_digit (c : ascii) : bool :=
  match digit_value c with
  | Some d => d <? 10
  | None => false
  end.

(** The callback of the three [find] calls: [x => x.id === id]. *)
Definition id_is (id : number) (v : value) : Result bool :=
  (let? x := get_prop v "id" in Ok (strict_eq_number x id))%result.

(** The callback of the related-quotes filter:
    [q => q.character.toLowerCase().includes(character.name.toLowerCase())]. *)
Definition names_character (character : value) (qt : value) : Result bool :=
  (let? who := get_prop qt "character" in
   let? hay := toLowerCase_method who in
   let? name := get_prop character "name" in
   let? needle := toLowerCase_method name in
   Ok (includes hay needle))%result.

(** The by-id branch of the three handlers, as a function of the resource
    and of the parsed id. *)
Definition by_id (r : resource) (id : number) : M unit :=
  match r with
  | Characters =>
      (cs <- gets characters ;;
       character <- lift (Array_find (id_is id) cs) ;;
       if ToBoolean character then
         (qs <- gets quotes ;;
          characterQuotes <- lift (Array_filter (names_character character) qs) ;;
          sendJSON (VObj (set_prop (spread character) "quotes" (VArr characterQuotes))) 200)
       else sendError "Character not found" 404)%handler
  | Episodes =>
      (eps <- gets episodes ;;
       episode <- lift (Array_find (id_is id) eps) ;;
       if ToBoolean episode then sendJSON episode 200
       else sendError "Episode not found" 404)%handler
  | Quotes =>
      (qs <- gets quotes ;;
       quote <- lift (Array_find (id_is id) qs) ;;
       if ToBoolean quote then sendJSON quote 200
       else sendError "Quote not found" 404)%handler
  end.

(** [mentions], decided. *)
Definition mentionsb (name : string) (qt : value) : bool :=
  match qt with
  | VObj props =>
      match lookup props "character" with
      | Some (VStr who) => includes (toLowerCase who) (toLowerCase name)
      | _ => false
      end
  | _ => false
  end.

(** The body of a by-id hit: the record itself, and for a character the
    record with a [quotes] property set. *)
Definition payload_of (r : resource) (rec body : value) : Prop :=
  match r with
  | Characters => exists qs, body = VObj (set_prop (spread rec) "quotes" (VArr qs))
  | _ => body = rec
  end.

(** A table with the ids 0 and 10. *)
Definition specials : World :=
  mkWorld []
          [VObj [("id", VNum (NInt 0)); ("season", VNum (NInt 0)); ("title", VStr "Pitch")];
           VObj [("id", VNum (NInt 10)); ("season", VNum (NInt 1)); ("title", VStr "Clip show")]]
          [] fresh (fun _ => 0%Q) 0.

(** [matches], decided: first for one field value, then for a record. *)
Definition field_matchesb (q : string) (x : value) : bool :=
  match toString_method x with
  | Ok s => includes (toLowerCase s) (toLowerCase q)
  | Throw _ => false
  end.

Definition matchesb (q : string) (v : value) : bool :=
  match v with
  | VObj props => existsb (field_matchesb q) (map snd props)
  | _ => false
  end.

(** The callback [filterByQuery] gives to [filter], for a query [q]. *)
Definition item_matches (q : qvalue) (item : value) : Result bool :=
  (let? values := Object_values item in
   Array_some (fun v =>
     let? s := toString_method v in
     let? needle := qtoLowerCase q in
     Ok (includes (toLowerCase s) needle)) values)%result.


(** The callback of the season filter: [ep => ep.season === parseInt(season)]. *)
Definition season_is (id : number) (ep : value) : Result bool :=
  (let? s := get_prop ep "season" in Ok (strict_eq_number s id))%result.

(** The [season] of an episode that has an integer one. *)
Definition season_of (v : value) : Z :=
  match v with
  | VObj props =>
      match lookup props "season" with
      | Some (VNum (NInt z)) => z
      | _ => 0
      end
  | _ => 0
  end.

(** The outcome of a handler that returned and left a complete JSON
    response with a body: status 200 and the JSON text of some value, or
    status 400 or 404 and an error envelope. *)
Definition well_answered (o : Result unit * World) : Prop :=
  fst o = Ok tt /\
  ended (res (snd o)) = true /\
  exists status data,
    head (res (snd o)) = Some (status, json_headers) /\
    body (res (snd o)) = Some data /\
    (status = 200 \/
     ((status = 400 \/ status = 404) /\ exists message, data = error_body message)).

(** ** Definitions for the further properties *)

(** The computation [m] leaves the component [f] of the world as it found
    it, whatever its outcome. *)
Definition keeps {A B : Type} (f : World -> B) (m : M A) : Prop :=
  forall w, f (snd (m w)) = f w.

(** A response that is written in full: the preflight answer (status 200,
    the three CORS headers, no body), a JSON answer with status 200, or an
    error envelope with status 400, 404 or 405. *)
Definition complete_response (r : ServerResponse) : Prop :=
  ended r = true /\
  ((head r = Some (200, cors_headers) /\ body r = None) \/
   head r = Some (200, json_headers) \/
   exists statusCode message,
     (statusCode = 400 \/ statusCode = 404 \/ statusCode = 405) /\
     head r = Some (statusCode, json_headers) /\
     body r = Some (error_body message)).

(** A handler that either returns with a complete response or throws
    with the response object untouched. *)
Definition all_or_nothing (m : M unit) : Prop :=
  forall w,
    match m w with
    | (Ok _, w') => complete_response (res w')
    | (Throw _, w') => res w' = res w
    end.

(** The requests that reach one of the three [getRandomItem] calls. *)
Definition is_random_route (req : Request) : bool :=
  String.eqb (method req) "GET" &&
  match pathParts_of req with
  | [root; endpoint; seg] =>
      String.eqb root "api" &&
      (String.eqb endpoint "characters" || String.eqb endpoint "episodes" ||
       String.eqb endpoint "quotes") &&
      String.eqb seg "random"
  | _ => false
  end.

(** The answer to a preflight request. *)
Definition preflight_reply : ServerResponse :=
  mkServerResponse (Some (200, cors_headers)) true None.

(** The non-empty pieces of a path: what [handleRequest] calls [pathParts]. *)
Definition segments (path : string) : list string :=
  filter nonempty (String_split "/" path).

Fixpoint only_slashes (s : string) : bool :=
  match s with
  | EmptyString => true
  | String c s' => Ascii.eqb c "/" && only_slashes s'
  end.

Fixpoint slash_free (s : string) : bool :=
  match s with
  | EmptyString => true
  | String c s' => negb (Ascii.eqb c "/") && slash_free s'
  end.

(** A path segment: not empty, and without a slash. *)
Definition segment (s : string) : bool := nonempty s && slash_free s.

(** [l'] is [l] with some elements left out, the others in their order. *)
Inductive subsequence {A : Type} : list A -> list A -> Prop :=
| subsequence_nil : subsequence [] []
| subsequence_keep x l' l : subsequence l' l -> subsequence (x :: l') (x :: l)
| subsequence_drop x l' l : subsequence l' l -> subsequence l' (x :: l).

(** The effect of a [search] parameter on a list: none when it is absent
    or empty, else the records that match it. *)
Definition by_search (sq : qvalue) (l l' : list value) : Prop :=
  match sq with
  | QStr q => if nonempty q then restricts (matches q) l l' else l' = l
  | _ => l' = l
  end.

(** The effect of a [character] parameter on the quotes: none when it is
    absent or empty, else the quotes that mention it. *)
Definition by_character (cq : qvalue) (l l' : list value) : Prop :=
  match cq with
  | QStr c => if nonempty c then restricts (mentions c) l l' else l' = l
  | _ => l' = l
  end.

(** An item without any property value to search: an empty object, an
    empty array or string, a number, a boolean. *)
Definition valueless (item : value) : bool :=
  match Object_values item with
  | Ok [] => true
  | _ => false
  end.

(** A field that the search can read and that does not contain [q]. *)
Definition passes (q : string) (p : string * value) : bool :=
  printable (snd p) && negb (field_matchesb q (snd p)).

(** What an episode reads as its [season], and the number Math.max makes
    of it when it is a number or missing. *)
Definition season_value (ep : value) : value :=
  match get_prop ep "season" with
  | Ok v => v
  | Throw _ => VUndefined
  end.

Definition season_number (ep : value) : number :=
  match season_value ep with
  | VNum n => n
  | _ => NNaN
  end.

(** The [season] of [ep] is a number, or is missing. *)
Definition season_number_or_missing (ep : value) : bool :=
  match get_prop ep "season" with
  | Ok (VNum _) | Ok VUndefined => true
  | _ => false
  end.

Definition season_missing (ep : value) : bool :=
  match get_prop ep "season" with
  | Ok VUndefined => true
  | _ => false
  end.

(** The digits of a decimal numeral, as digit values. *)
Fixpoint uint_values (d : Decimal.uint) : list Z :=
  match d with
  | Decimal.Nil => []
  | Decimal.D0 d' => 0 :: uint_values d'
  | Decimal.D1 d' => 1 :: uint_values d'
  | Decimal.D2 d' => 2 :: uint_values d'
  | Decimal.D3 d' => 3 :: uint_values d'
  | Decimal.D4 d' => 4 :: uint_values d'
  | Decimal.D5 d' => 5 :: uint_values d'
  | Decimal.D6 d' => 6 :: uint_values d'
  | Decimal.D7 d' => 7 :: uint_values d'
  | Decimal.D8 d' => 8 :: uint_values d'
  | Decimal.D9 d' => 9 :: uint_values d'
  end.

(** ** The response helpers *)

Lemma sendJSON_run (data : value) (statusCode : Z) (w : World) :
  sendJSON data statusCode w =
  (Ok tt, set_res (mkServerResponse (Some (statusCode, json_headers)) true (JSON_stringify data)) w).
Proof. reflexivity. Qed.

Lemma sendError_run (message : string) (statusCode : Z) (w : World) :
  sendError message statusCode w =
  (Ok tt, set_res (json_reply statusCode (error_body message)) w).
Proof. reflexivity. Qed.

Lemma sendJSON_object (props : list (string * value)) (statusCode : Z) (w : World) :
  sendJSON (VObj props) statusCode w =
  (Ok tt, set_res (json_reply statusCode (VObj props)) w).
Proof. reflexivity. Qed.

Lemma bind_gets {A B : Type} (f : World -> A) (k : A -> M B) (w : World) :
  bind (gets f) k w = k (f w) w.
Proof. reflexivity. Qed.

Lemma bind_lift_Ok {A B : Type} (a : A) (k : A -> M B) (w : World) :
  bind (lift (Ok a)) k w = k a w.
Proof. reflexivity. Qed.

Lemma bind_lift_Throw {A B : Type} (e : error) (k : A -> M B) (w : World) :
  bind (lift (Throw e)) k w = (Throw e, w).
Proof. reflexivity. Qed.

(** ** Request handling leaves the tables alone *)

Lemma preserves_ret {A : Type} (a : A) : preserves (ret a).
Proof. intros w; reflexivity. Qed.

Lemma preserves_lift {A : Type} (r : Result A) : preserves (lift r).
Proof. intros w; reflexivity. Qed.

Lemma preserves_gets {A : Type} (f : World -> A) : preserves (gets f).
Proof. intros w; reflexivity. Qed.

Lemma preserves_writeHead (statusCode : Z) (hs : list (string * string)) :
  preserves (writeHead statusCode hs).
Proof. intros w; reflexivity. Qed.

Lemma preserves_end (data : option value) : preserves (end_ data).
Proof. intros w; reflexivity. Qed.

Lemma preserves_Math_random : preserves Math_random.
Proof. intros w; reflexivity. Qed.

Lemma preserves_bind {A B : Type} (m : M A) (k : A -> M B) :
  preserves m -> (forall a, preserves (k a)) -> preserves (bind m k).
Proof.
  intros Hm Hk w. unfold bind.
  specialize (Hm w). destruct (m w) as [[a | e] w1]; simpl in *.
  - rewrite Hk. exact Hm.
  - exact Hm.
Qed.

Lemma preserves_if {A : Type} (b : bool) (m1 m2 : M A) :
  preserves m1 -> preserves m2 -> preserves (if b then m1 else m2).
Proof. destruct b; auto. Qed.

Create HintDb tables discriminated.

#[local] Hint Resolve preserves_ret preserves_lift preserves_gets preserves_writeHead
  preserves_end preserves_Math_random preserves_if : tables.
#[local] Hint Extern 2 (preserves (bind _ _)) =>
  apply preserves_bind; [ | intro ] : tables.

Lemma preserves_sendJSON (data : value) (statusCode : Z) :
  preserves (sendJSON data statusCode).
Proof. unfold sendJSON. auto with tables. Qed.

Lemma preserves_sendError (message : string) (statusCode : Z) :
  preserves (sendError message statusCode).
Proof. apply preserves_sendJSON. Qed.

Lemma preserves_getRandomItem (array : list value) : preserves (getRandomItem array).
Proof. unfold getRandomItem. auto with tables. Qed.

#[local] Hint Resolve preserves_sendJSON preserves_sendError preserves_getRandomItem : tables.

Ltac by_route parts :=
  destruct parts as [| ? [| ? [| ? [| ? ?]]]]; simpl; auto 12 with tables.

Lemma preserves_handleCharacters (pathParts : list string) (q : list (string * qvalue)) :
  preserves (handleCharacters pathParts q).
Proof.
  unfold handleCharacters. by_route pathParts.
Qed.

Lemma preserves_handleEpisodes (pathParts : list string) (q : list (string * qvalue)) :
  preserves (handleEpisodes pathParts q).
Proof.
  unfold handleEpisodes. by_route pathParts.
Qed.

Lemma preserves_handleQuotes (pathParts : list string) (q : list (string * qvalue)) :
  preserves (handleQuotes pathParts q).
Proof.
  unfold handleQuotes. by_route pathParts.
Qed.

Lemma preserves_handleStats : preserves handleStats.
Proof. unfold handleStats. auto 10 with tables. Qed.

Lemma preserves_handleCatchphrases (pathParts : list string) (q : list (string * qvalue)) :
  preserves (handleCatchphrases pathParts q).
Proof.
  unfold handleCatchphrases, catchphrases. by_route pathParts.
Qed.

#[local] Hint Resolve preserves_handleCharacters preserves_handleEpisodes
  preserves_handleQuotes preserves_handleStats : tables.

Lemma preserves_handleRequest (req : Request) : preserves (handleRequest req).
Proof.
  unfold handleRequest. destruct (pathname req); [| auto with tables].
  apply preserves_if; [auto with tables |].
  apply preserves_if; [auto with tables |].
  destruct (pathParts_of req) as [| root [| endpoint rest]]; auto 8 with tables.
Qed.

(** C9.  Whatever the request (any method, path and query) and whatever the
    outcome of handling it, a response or an exception, the three tables
    after the request are the tables before it: same records, same order. *)
Theorem tables_unchanged_by_request (req : Request) (w : World) :
  characters (snd (handleRequest req w)) = characters w /\
  episodes (snd (handleRequest req w)) = episodes w /\
  quotes (snd (handleRequest req w)) = quotes w.
Proof.
  pose proof (preserves_handleRequest req w) as H.
  unfold tables in H. injection H as Hc He Hq. auto.
Qed.

(** ** The substring filter without a query *)

(** C8.  [filterByQuery] called with an absent query ([undefined]) or with
    the empty string returns the very array it was given: same elements,
    same order, same length, and no exception. *)
Theorem filterByQuery_no_query (array : list value) :
  filterByQuery array QUndef = Ok array /\
  filterByQuery array (QStr "") = Ok array.
Proof. split; reflexivity. Qed.

(** ** Dispatch *)

(** What [handleRequest] does with a GET request, by its path segments. *)
Lemma handleRequest_GET (req : Request) :
  method req = "GET" ->
  handleRequest req =
  match pathParts_of req with
  | [] =>
      match pathname req with
      | None => lift (Throw TypeError)
      | Some _ => sendJSON documentation 200
      end
  | root :: rest =>
      if String.eqb root "api" then
        match rest with
        | [] => sendError "Invalid API endpoint" 400
        | endpoint :: _ =>
            if String.eqb endpoint "characters" then handleCharacters (pathParts_of req) (query req)
            else if String.eqb endpoint "episodes" then handleEpisodes (pathParts_of req) (query req)
            else if String.eqb endpoint "quotes" then handleQuotes (pathParts_of req) (query req)
            else if String.eqb endpoint "stats" then handleStats
            else sendError "Endpoint not found" 404
        end
      else sendError "Not found" 404
  end.
Proof.
  intros Hm. unfold handleRequest, pathParts_of.
  destruct (pathname req) as [path |]; [| reflexivity].
  rewrite Hm. cbn [String.eqb Ascii.eqb Bool.eqb negb].
  destruct (filter nonempty (String_split "/" path)); reflexivity.
Qed.

Lemma responds_sendError (req : Request) (w : World) (message : string) (statusCode : Z) :
  handleRequest req w = sendError message statusCode w ->
  responds req w (json_reply statusCode (error_body message)).
Proof. intros H. unfold responds. rewrite H, sendError_run. split; reflexivity. Qed.

(** Were the catchphrases handler ever called on a collection, random or
    by-id path, it would stop on the unbound identifier before writing
    anything. *)
Lemma handleCatchphrases_throws (pathParts : list string) (q : list (string * qvalue)) (w : World) :
  List.length pathParts = 2%nat \/ List.length pathParts = 3%nat ->
  handleCatchphrases pathParts q w = (Throw ReferenceError, w).
Proof.
  intros [H | H]; destruct pathParts as [| a [| b [| c [| d l]]]]; try discriminate H.
  - reflexivity.
  - simpl. destruct (String.eqb c "random"); reflexivity.
Qed.

(** C1.  A GET request whose path is [/api/catchphrases], alone or followed
    by any further segments, is answered, without any exception, by status
    404 and the JSON body [{error: "Endpoint not found"}]: an error envelope
    and never a data payload.  The dispatcher has no case for the segment
    [catchphrases], so the handler that reads the missing table is not
    reached. *)
Theorem catchphrases_route_fails_predictably (req : Request) (w : World) (rest : list string) :
  method req = "GET" ->
  pathParts_of req = "api" :: "catchphrases" :: rest ->
  responds req w (json_reply 404 (error_body "Endpoint not found")).
Proof.
  intros Hm Hp. apply responds_sendError.
  rewrite (handleRequest_GET req Hm), Hp. reflexivity.
Qed.

Lemma catchphrases_route_fails_predictably_witness :
  responds (GET "/api/catchphrases/7" [("search", QStr "yada")]) sample
           (json_reply 404 (error_body "Endpoint not found")).
Proof.
  apply (catchphrases_route_fails_predictably
           (GET "/api/catchphrases/7" [("search", QStr "yada")]) sample ["7"]);
    reflexivity.
Defined.

(** C2, as the specification words it, fails: the path [/api/kramer] is no
    route, and the body of its 404 response is
    [{error: "Endpoint not found"}], not [{error: "Not found"}]. *)
Lemma unknown_api_path_message :
  method (GET "/api/kramer" []) = "GET" /\
  known_route (pathParts_of (GET "/api/kramer" [])) = false /\
  responds (GET "/api/kramer" []) sample (json_reply 404 (error_body "Endpoint not found")) /\
  ~ responds (GET "/api/kramer" []) sample (json_reply 404 (error_body "Not found")).
Proof.
  repeat split; try reflexivity.
  intros [_ H]. vm_compute in H. discriminate H.
Qed.

(** C2, amended.  A GET request whose path leaves the routes is answered
    by an error envelope that depends on where it leaves them:
    - first segment other than [api]: 404, [{error: "Not found"}];
    - [/api] alone: 400, [{error: "Invalid API endpoint"}];
    - [/api/x...] with [x] none of characters, episodes, quotes, stats:
      404, [{error: "Endpoint not found"}];
    - characters, episodes or quotes followed by two or more segments:
      404, [{error: "Invalid <resource> endpoint"}]. *)
Theorem unmatched_path_response (req : Request) (w : World) :
  method req = "GET" ->
  (forall root rest,
      pathParts_of req = root :: rest -> root <> "api" ->
      responds req w (json_reply 404 (error_body "Not found"))) /\
  (pathParts_of req = ["api"] ->
   responds req w (json_reply 400 (error_body "Invalid API endpoint"))) /\
  (forall endpoint rest,
      pathParts_of req = "api" :: endpoint :: rest ->
      endpoint <> "characters" -> endpoint <> "episodes" ->
      endpoint <> "quotes" -> endpoint <> "stats" ->
      responds req w (json_reply 404 (error_body "Endpoint not found"))) /\
  (forall (r : resource) a b rest,
      pathParts_of req = "api" :: root_of r :: a :: b :: rest ->
      responds req w
        (json_reply 404 (error_body ("Invalid " ++ root_of r ++ " endpoint")))).
Proof.
  intros Hm. pose proof (handleRequest_GET req Hm) as HG.
  split; [| split; [| split]].
  - intros root rest Hp Hr. apply responds_sendError.
    rewrite HG, Hp. apply String.eqb_neq in Hr. rewrite Hr. reflexivity.
  - intros Hp. apply responds_sendError. rewrite HG, Hp. reflexivity.
  - intros endpoint rest Hp H1 H2 H3 H4. apply responds_sendError.
    rewrite HG, Hp. apply String.eqb_neq in H1, H2, H3, H4.
    rewrite String.eqb_refl, H1, H2, H3, H4. reflexivity.
  - intros r a b rest Hp. apply responds_sendError.
    rewrite HG, Hp. destruct r; reflexivity.
Qed.

Lemma unmatched_path_response_witness :
  responds (GET "/newman/mail" []) sample (json_reply 404 (error_body "Not found")).
Proof.
  apply (proj1 (unmatched_path_response (GET "/newman/mail" []) sample eq_refl)
               "newman" ["mail"]).
  - reflexivity.
  - discriminate.
Defined.

(** ** parseInt on a path segment *)

Ltac each_code_unit c :=
  destruct c as [b0 b1 b2 b3 b4 b5 b6 b7];
  destruct b0, b1, b2, b3, b4, b5, b6, b7.

(** A decimal digit is no white space, no sign and not the letter r. *)
Lemma decimal_digit_first (c : ascii) (s : string) :
  is_decimal_digit c = true ->
  trimStart (String c s) = String c s /\
  strip_sign (String c s) = (1, String c s) /\
  String.eqb (String c s) "random" = false.
Proof.
  intros H. each_code_unit c; try discriminate H; repeat split; reflexivity.
Qed.

Lemma leading_digits_decimal (c : ascii) (s : string) :
  leading_digits 10 (String c s) =
  if is_decimal_digit c
  then match digit_value c with
       | Some d => d :: leading_digits 10 s
       | None => []
       end
  else [].
Proof.
  unfold is_decimal_digit. simpl.
  destruct (digit_value c) as [d |]; [destruct (d <? 10) |]; reflexivity.
Qed.

Lemma all_digits_cons (c : ascii) (s : string) :
  all_digits 10 (String c s) = true ->
  is_decimal_digit c = true /\ (s = EmptyString \/ all_digits 10 s = true).
Proof.
  unfold all_digits. rewrite leading_digits_decimal.
  destruct (is_decimal_digit c) eqn:Hc; simpl; [| discriminate].
  unfold is_decimal_digit in Hc.
  destruct (digit_value c) as [d |]; [| discriminate].
  simpl. intros H. split; [reflexivity |].
  destruct s as [| a s']; [left; reflexivity | right; exact H].
Qed.

(** What follows a run of decimal digits, if it starts with a non-digit,
    does not change the digits read. *)
Lemma leading_digits_app (digits : string) (c : ascii) (rest : string) :
  all_digits 10 digits = true ->
  is_decimal_digit c = false ->
  leading_digits 10 (digits ++ String c rest) = leading_digits 10 digits.
Proof.
  intros Hd Hc. induction digits as [| a digits IH]; [discriminate Hd |].
  apply all_digits_cons in Hd as [Ha Hrest].
  change (String a digits ++ String c rest)%string
    with (String a (digits ++ String c rest)).
  rewrite !leading_digits_decimal, Ha.
  destruct (digit_value a) as [d |]; [| reflexivity].
  f_equal. destruct Hrest as [-> | Hrest].
  - change (leading_digits 10 (String c rest) = []).
    rewrite leading_digits_decimal, Hc. reflexivity.
  - exact (IH Hrest).
Qed.

Lemma all_digits_not_hex (digits : string) :
  all_digits 10 digits = true -> hex_prefixed digits = false.
Proof.
  intros Hd. destruct digits as [| a [| b s]]; try reflexivity.
  - each_code_unit a; reflexivity.
  - apply all_digits_cons in Hd as [_ [Hs | Hs]]; [discriminate Hs |].
    apply all_digits_cons in Hs as [Hb _].
    each_code_unit b; try discriminate Hb; each_code_unit a; reflexivity.
Qed.

Lemma all_digits_leading (digits : string) :
  all_digits 10 digits = true -> leading_digits 10 digits <> [].
Proof.
  intros Hd. destruct digits as [| a s]; [discriminate Hd |].
  apply all_digits_cons in Hd as [Ha _].
  rewrite leading_digits_decimal, Ha. unfold is_decimal_digit in Ha.
  destruct (digit_value a); discriminate.
Qed.

(** [parseInt] of a string that needs no trimming, has no sign and no
    hexadecimal prefix. *)
Lemma parseInt_plain (s : string) :
  trimStart s = s -> strip_sign s = (1, s) -> hex_prefixed s = false ->
  parseInt s = match leading_digits 10 s with
               | [] => NNaN
               | ds => NInt (1 * mathInt 10 ds)
               end.
Proof. intros Ht Hs Hx. unfold parseInt. rewrite Ht, Hs, Hx. reflexivity. Qed.

Lemma parseInt_digits (digits : string) :
  all_digits 10 digits = true ->
  parseInt digits = NInt (mathInt 10 (leading_digits 10 digits)).
Proof.
  intros Hd. pose proof (all_digits_not_hex digits Hd) as Hx.
  pose proof (all_digits_leading digits Hd) as Hne.
  destruct digits as [| a s]; [discriminate Hd |].
  destruct (all_digits_cons a s Hd) as [Ha _].
  destruct (decimal_digit_first a s Ha) as (Ht & Hs & _).
  rewrite (parseInt_plain _ Ht Hs Hx).
  destruct (leading_digits 10 (String a s)) as [| d ds]; [contradiction |].
  f_equal. lia.
Qed.

Lemma parseInt_digits_then (digits : string) (c : ascii) (rest : string) :
  all_digits 10 digits = true ->
  is_decimal_digit c = false ->
  hex_prefixed (digits ++ String c rest) = false ->
  parseInt (digits ++ String c rest) = parseInt digits.
Proof.
  intros Hd Hc Hx. rewrite (parseInt_digits digits Hd).
  pose proof (all_digits_leading digits Hd) as Hne.
  pose proof (leading_digits_app digits c rest Hd Hc) as Hl.
  destruct digits as [| a s]; [discriminate Hd |].
  destruct (all_digits_cons a s Hd) as [Ha _].
  change (String a s ++ String c rest)%string with (String a (s ++ String c rest)) in *.
  destruct (decimal_digit_first a (s ++ String c rest) Ha) as (Ht & Hs & _).
  rewrite (parseInt_plain _ Ht Hs Hx), Hl.
  destruct (leading_digits 10 (String a s)) as [| d ds]; [contradiction |].
  f_equal. lia.
Qed.

(** [parseInt] gives an integer or NaN. *)
Lemma parseInt_range (s : string) :
  parseInt s = NNaN \/ exists n, parseInt s = NInt n.
Proof.
  unfold parseInt. destruct (strip_sign (trimStart s)) as [sign body].
  destruct (hex_prefixed body);
    match goal with
    | |- context [leading_digits ?R ?d] => destruct (leading_digits R d)
    end; eauto.
Qed.

(** ** Array methods with callbacks that do not throw *)

Lemma Array_find_hit (cb : value -> Result bool) (pre : list value) (x : value) (post : list value) :
  (forall y, In y pre -> cb y = Ok false) ->
  cb x = Ok true ->
  Array_find cb (pre ++ x :: post) = Ok x.
Proof.
  intros Hpre Hx. induction pre as [| y pre IH]; simpl.
  - rewrite Hx. reflexivity.
  - rewrite (Hpre y (or_introl eq_refl)). simpl.
    apply IH. intros z Hz. apply Hpre. right. exact Hz.
Qed.

Lemma Array_find_miss (cb : value -> Result bool) (l : list value) :
  (forall y, In y l -> cb y = Ok false) ->
  Array_find cb l = Ok VUndefined.
Proof.
  intros Hl. induction l as [| y l IH]; simpl; [reflexivity |].
  rewrite (Hl y (or_introl eq_refl)). simpl.
  apply IH. intros z Hz. apply Hl. right. exact Hz.
Qed.

Lemma Array_filter_pure {A : Type} (cb : A -> Result bool) (f : A -> bool) (l : list A) :
  (forall x, In x l -> cb x = Ok (f x)) ->
  Array_filter cb l = Ok (filter f l).
Proof.
  intros Hl. induction l as [| x l IH]; simpl; [reflexivity |].
  rewrite (Hl x (or_introl eq_refl)). simpl.
  rewrite IH by (intros z Hz; apply Hl; right; exact Hz). reflexivity.
Qed.

Lemma Array_some_pure {A : Type} (cb : A -> Result bool) (f : A -> bool) (l : list A) :
  (forall x, In x l -> cb x = Ok (f x)) ->
  Array_some cb l = Ok (existsb f l).
Proof.
  intros Hl. induction l as [| x l IH]; simpl; [reflexivity |].
  rewrite (Hl x (or_introl eq_refl)). simpl.
  destruct (f x); [reflexivity |].
  apply IH. intros z Hz. apply Hl. right. exact Hz.
Qed.

Lemma Array_map_pure {A B : Type} (cb : A -> Result B) (f : A -> B) (l : list A) :
  (forall x, In x l -> cb x = Ok (f x)) ->
  Array_map cb l = Ok (map f l).
Proof.
  intros Hl. induction l as [| x l IH]; simpl; [reflexivity |].
  rewrite (Hl x (or_introl eq_refl)). simpl.
  rewrite IH by (intros z Hz; apply Hl; right; exact Hz). reflexivity.
Qed.

Lemma filter_restricts {A : Type} (P : A -> Prop) (f : A -> bool) (l : list A) :
  (forall x, In x l -> (f x = true <-> P x)) ->
  restricts P l (filter f l).
Proof.
  intros Hl. induction l as [| x l IH]; simpl; [constructor |].
  assert (IH' : restricts P l (filter f l))
    by (apply IH; intros z Hz; apply Hl; right; exact Hz).
  pose proof (Hl x (or_introl eq_refl)) as Hx.
  destruct (f x).
  - apply restricts_keep; [apply Hx; reflexivity | exact IH'].
  - apply restricts_drop; [| exact IH'].
    intros HP. apply Hx in HP. discriminate HP.
Qed.

(** What [restricts] says: the result holds exactly the elements of the
    list that satisfy the predicate. *)
Lemma restricts_In {A : Type} (P : A -> Prop) (l l' : list A) :
  restricts P l l' -> forall x, In x l' <-> In x l /\ P x.
Proof.
  induction 1 as [| x l l' HP _ IH | x l l' HP _ IH]; intros y; simpl.
  - tauto.
  - rewrite IH. split.
    + intros [-> | [Hy Py]]; auto.
    + intros [[-> | Hy] Py]; auto.
  - rewrite IH. split.
    + intros [Hy Py]; auto.
    + intros [[-> | Hy] Py]; [contradiction | auto].
Qed.

(** ** String inclusion *)

Lemma prefix_spec (a b : string) :
  String.prefix a b = true <-> exists post, b = (a ++ post)%string.
Proof.
  revert b. induction a as [| c a IH]; intros b.
  - split; [intros _; exists b; reflexivity | intros _; destruct b; reflexivity].
  - destruct b as [| d b]; simpl.
    + split; [discriminate | intros [post H]; discriminate H].
    + destruct (ascii_dec c d) as [-> | Hcd].
      * rewrite IH. split; intros [post H]; exists post.
        -- rewrite H. reflexivity.
        -- injection H as H. exact H.
      * split; [discriminate |].
        intros [post H]. injection H as H1 H2. congruence.
Qed.

Lemma includes_spec (hay needle : string) :
  includes hay needle = true <->
  exists pre post, hay = (pre ++ needle ++ post)%string.
Proof.
  induction hay as [| c hay IH]; cbn [includes].
  - rewrite prefix_spec. split.
    + intros [post H]. exists EmptyString, post. exact H.
    + intros [pre [post H]]. destruct pre; [exists post; exact H | discriminate H].
  - rewrite orb_true_iff, IH, prefix_spec. split.
    + intros [[post H] | [pre [post H]]].
      * exists EmptyString, post. exact H.
      * exists (String c pre), post. rewrite H. reflexivity.
    + intros [pre [post H]]. destruct pre as [| d pre].
      * left. exists post. exact H.
      * right. injection H as _ H. exists pre, post. exact H.
Qed.

Lemma includes_ci (hay needle : string) :
  includes (toLowerCase hay) (toLowerCase needle) = true <-> ci_contains hay needle.
Proof. apply includes_spec. Qed.

(** ** Lookup by id *)

Lemma by_id_route (req : Request) (r : resource) (seg : string) :
  method req = "GET" ->
  pathParts_of req = ["api"; root_of r; seg] ->
  String.eqb seg "random" = false ->
  handleRequest req = by_id r (parseInt seg).
Proof.
  intros Hm Hp Hs. rewrite (handleRequest_GET req Hm), Hp.
  destruct r; simpl; rewrite Hs; reflexivity.
Qed.

Lemma mentionsb_spec (name : string) (qt : value) :
  mentionsb name qt = true <-> mentions name qt.
Proof.
  unfold mentions, mentionsb. split.
  - destruct qt as [| | | | | | props]; try discriminate.
    simpl. destruct (lookup props "character") as [[| | | | who | |] |]; try discriminate.
    intros H. exists who. split; [reflexivity | apply includes_ci; exact H].
  - intros [who [Hg Hc]]. destruct qt as [| | | | | | props]; try discriminate Hg.
    simpl in Hg. destruct (lookup props "character") as [x |]; [| discriminate Hg].
    injection Hg as ->. apply includes_ci. exact Hc.
Qed.

Lemma is_object_inv (v : value) :
  is_object v = true -> exists props, v = VObj props.
Proof. destruct v; try discriminate. eauto. Qed.

Lemma has_string_object (k : string) (v : value) :
  has_string k v = true -> is_object v = true.
Proof. destruct v; try discriminate. reflexivity. Qed.

Lemma has_integer_object (k : string) (v : value) :
  has_integer k v = true -> is_object v = true.
Proof. destruct v; try discriminate. reflexivity. Qed.

Lemma has_id_object (n : Z) (v : value) :
  has_id n v -> exists props, v = VObj props.
Proof.
  unfold has_id. destruct v; simpl; try discriminate. eauto.
Qed.

Lemma id_is_hit (n : Z) (v : value) :
  has_id n v -> id_is (NInt n) v = Ok true.
Proof.
  unfold has_id, id_is. intros ->. simpl. rewrite Z.eqb_refl. reflexivity.
Qed.

Lemma id_is_miss (n : Z) (v : value) :
  is_object v = true -> ~ has_id n v -> id_is (NInt n) v = Ok false.
Proof.
  intros Hr Hn. apply is_object_inv in Hr as [props ->].
  unfold has_id, id_is in *. simpl in *.
  destruct (lookup props "id") as [x |]; simpl; [| reflexivity].
  destruct x as [| | | [z | | |] | | |]; try reflexivity.
  simpl. destruct (Z.eqb_spec z n) as [-> |]; [| reflexivity].
  exfalso. apply Hn. reflexivity.
Qed.

Lemma id_is_NaN (v : value) :
  is_object v = true -> id_is NNaN v = Ok false.
Proof.
  intros Hr. apply is_object_inv in Hr as [props ->].
  unfold id_is. simpl.
  destruct (lookup props "id") as [[| | | [z | | |] | | |] |]; reflexivity.
Qed.

Lemma wf_table (w : World) (r : resource) (x : value) :
  wf_dataset w -> In x (table_of r w) -> is_object x = true.
Proof.
  intros (Hc & He & Hq) Hx. destruct r; simpl in Hx.
  - apply (has_string_object "name"). exact (proj1 (forallb_forall _ _) Hc x Hx).
  - apply (has_integer_object "season"). exact (proj1 (forallb_forall _ _) He x Hx).
  - apply (has_string_object "character"). exact (proj1 (forallb_forall _ _) Hq x Hx).
Qed.

Lemma by_id_miss (r : resource) (id : number) (w : World) :
  (forall x, In x (table_of r w) -> id_is id x = Ok false) ->
  by_id r id w = sendError (label_of r ++ " not found") 404 w.
Proof.
  intros H. destruct r; simpl in H; unfold by_id; rewrite bind_gets;
    rewrite (Array_find_miss _ _ H); reflexivity.
Qed.

Lemma names_character_pure (props : list (string * value)) (name : string) (qt : value) :
  lookup props "name" = Some (VStr name) ->
  wf_quote qt = true ->
  names_character (VObj props) qt = Ok (mentionsb name qt).
Proof.
  intros Hn Hq.
  destruct qt as [| | | | | | qprops]; try discriminate Hq.
  unfold names_character, mentionsb. simpl in *. rewrite Hn.
  destruct (lookup qprops "character") as [[| | | | who | |] |]; try discriminate Hq.
  reflexivity.
Qed.

Lemma by_id_hit_character (id : number) (w : World)
      (pre : list value) (props : list (string * value)) (post : list value) (name : string) :
  forallb wf_quote (quotes w) = true ->
  characters w = (pre ++ VObj props :: post)%list ->
  (forall x, In x pre -> id_is id x = Ok false) ->
  id_is id (VObj props) = Ok true ->
  lookup props "name" = Some (VStr name) ->
  by_id Characters id w =
  sendJSON (VObj (set_prop props "quotes" (VArr (filter (mentionsb name) (quotes w))))) 200 w.
Proof.
  intros Hq Hc Hpre Hx Hn. unfold by_id. rewrite bind_gets, Hc.
  rewrite (Array_find_hit _ _ _ _ Hpre Hx), bind_lift_Ok.
  cbn [ToBoolean]. rewrite bind_gets.
  rewrite (Array_filter_pure _ (mentionsb name)).
  - reflexivity.
  - intros qt Hqt. apply names_character_pure; [exact Hn |].
    exact (proj1 (forallb_forall _ _) Hq qt Hqt).
Qed.

Lemma by_id_hit_other (r : resource) (id : number) (w : World)
      (pre : list value) (props : list (string * value)) (post : list value) :
  r <> Characters ->
  table_of r w = (pre ++ VObj props :: post)%list ->
  (forall x, In x pre -> id_is id x = Ok false) ->
  id_is id (VObj props) = Ok true ->
  by_id r id w = sendJSON (VObj props) 200 w.
Proof.
  intros Hr Ht Hpre Hx.
  destruct r; [contradiction | |]; simpl in Ht; unfold by_id;
    rewrite bind_gets, Ht, (Array_find_hit _ _ _ _ Hpre Hx); reflexivity.
Qed.

Lemma responds_sendJSON_object (req : Request) (w : World)
      (props : list (string * value)) (statusCode : Z) :
  handleRequest req w = sendJSON (VObj props) statusCode w ->
  responds req w (json_reply statusCode (VObj props)).
Proof. intros H. unfold responds. rewrite H, sendJSON_object. split; reflexivity. Qed.

Lemma wf_character_name (w : World) (props : list (string * value)) :
  wf_dataset w -> In (VObj props) (characters w) ->
  exists name, lookup props "name" = Some (VStr name).
Proof.
  intros (Hc & _ & _) Hin.
  pose proof (proj1 (forallb_forall _ _) Hc _ Hin) as H. simpl in H.
  destruct (lookup props "name") as [[| | | | name | |] |]; try discriminate H.
  exists name. reflexivity.
Qed.

Lemma lookup_set_prop_same (props : list (string * value)) (k : string) (v : value) :
  lookup (set_prop props k v) k = Some v.
Proof.
  induction props as [| [k' v'] props IH]; simpl.
  - rewrite String.eqb_refl. reflexivity.
  - destruct (String.eqb k' k) eqn:E; simpl.
    + rewrite String.eqb_refl. reflexivity.
    + rewrite E. exact IH.
Qed.

Lemma lookup_set_prop_other (props : list (string * value)) (k k0 : string) (v : value) :
  k0 <> k -> lookup (set_prop props k v) k0 = lookup props k0.
Proof.
  intros Hk. induction props as [| [k' v'] props IH]; simpl.
  - apply String.eqb_neq in Hk. rewrite String.eqb_sym, Hk. reflexivity.
  - destruct (String.eqb k' k) eqn:E; simpl.
    + apply String.eqb_eq in E. subst k'.
      apply String.eqb_neq in Hk. rewrite String.eqb_sym, Hk. reflexivity.
    + rewrite IH. reflexivity.
Qed.

Lemma by_id_hit (r : resource) (id : number) (w : World)
      (pre : list value) (props : list (string * value)) (post : list value) :
  wf_dataset w ->
  table_of r w = (pre ++ VObj props :: post)%list ->
  (forall x, In x pre -> id_is id x = Ok false) ->
  id_is id (VObj props) = Ok true ->
  exists body,
    by_id r id w = sendJSON (VObj body) 200 w /\ payload_of r (VObj props) (VObj body).
Proof.
  intros Hwf Ht Hpre Hhit. destruct r.
  - destruct (wf_character_name w props Hwf) as [name Hname].
    { simpl in Ht. rewrite Ht. apply in_or_app. right. left. reflexivity. }
    eexists. split.
    + apply (by_id_hit_character _ w pre props post name); try assumption.
      apply Hwf.
    + simpl. eexists. reflexivity.
  - exists props. split; [| reflexivity].
    apply (by_id_hit_other Episodes _ w pre props post); try assumption. discriminate.
  - exists props. split; [| reflexivity].
    apply (by_id_hit_other Quotes _ w pre props post); try assumption. discriminate.
Qed.

Section ById.

Variables (r : resource) (req : Request) (w : World) (seg : string).
Hypothesis Hwf : wf_dataset w.
Hypothesis Hget : method req = "GET".
Hypothesis Hpath : pathParts_of req = ["api"; root_of r; seg].
Hypothesis Hseg : seg <> "random".

Lemma by_id_here : handleRequest req = by_id r (parseInt seg).
Proof. apply by_id_route; [exact Hget | exact Hpath | apply String.eqb_neq; exact Hseg]. Qed.

Lemma by_id_found (n : Z) (pre : list value) (rec : value) (post : list value) :
  parseInt seg = NInt n ->
  table_of r w = (pre ++ rec :: post)%list ->
  has_id n rec ->
  (forall x, In x pre -> ~ has_id n x) ->
  exists body, responds req w (json_reply 200 body) /\ payload_of r rec body.
Proof.
  intros Hn Ht Hrec Hpre.
  destruct (has_id_object n rec Hrec) as [props ->].
  assert (Hpre' : forall x, In x pre -> id_is (NInt n) x = Ok false).
  { intros x Hx. apply id_is_miss; [| apply Hpre; exact Hx].
    apply (wf_table w r); [exact Hwf |]. rewrite Ht. apply in_or_app. left. exact Hx. }
  destruct (by_id_hit r (NInt n) w pre props post Hwf Ht Hpre' (id_is_hit n _ Hrec))
    as [body [Hrun Hbody]].
  exists (VObj body). split; [| exact Hbody].
  apply responds_sendJSON_object. rewrite by_id_here, Hn. exact Hrun.
Qed.

Lemma by_id_absent (n : Z) :
  parseInt seg = NInt n ->
  (forall x, In x (table_of r w) -> ~ has_id n x) ->
  responds req w (json_reply 404 (error_body (label_of r ++ " not found"))).
Proof.
  intros Hn Hnone. apply responds_sendError. rewrite by_id_here, Hn.
  apply by_id_miss. intros x Hx.
  apply id_is_miss; [apply (wf_table w r); assumption | apply Hnone; exact Hx].
Qed.

Lemma by_id_unparsed :
  parseInt seg = NNaN ->
  responds req w (json_reply 404 (error_body (label_of r ++ " not found"))).
Proof.
  intros Hn. apply responds_sendError. rewrite by_id_here, Hn.
  apply by_id_miss. intros x Hx.
  apply id_is_NaN. apply (wf_table w r); assumption.
Qed.

End ById.

(** C4.  On a dataset that follows the data model, for each of the three
    resources and every GET request to [/api/<resource>/<segment>] whose
    segment is not the word [random]:
    - if the segment parses to an integer [n] and [rec] is the first record
      of the table with [id] equal to [n], the response is 200 with [rec]
      as its body (for a character, [rec] with its [quotes] set);
    - if it parses to [n] and no record has that [id], the response is 404
      with [{error: "<Resource> not found"}];
    - if it does not parse (NaN), the response is that same 404: a
      non-numeric segment is reported as not found, never as a parse
      error. *)
Theorem by_id_lookup (r : resource) (req : Request) (w : World) (seg : string) :
  wf_dataset w ->
  method req = "GET" ->
  pathParts_of req = ["api"; root_of r; seg] ->
  seg <> "random" ->
  (forall n pre rec post,
      parseInt seg = NInt n ->
      table_of r w = (pre ++ rec :: post)%list ->
      has_id n rec ->
      (forall x, In x pre -> ~ has_id n x) ->
      exists body, responds req w (json_reply 200 body) /\ payload_of r rec body) /\
  (forall n,
      parseInt seg = NInt n ->
      (forall x, In x (table_of r w) -> ~ has_id n x) ->
      responds req w (json_reply 404 (error_body (label_of r ++ " not found")))) /\
  (parseInt seg = NNaN ->
   responds req w (json_reply 404 (error_body (label_of r ++ " not found")))).
Proof.
  intros Hwf Hget Hpath Hseg. split; [| split].
  - intros n pre rec post. apply (by_id_found r req w seg); assumption.
  - intros n. apply (by_id_absent r req w seg); assumption.
  - apply (by_id_unparsed r req w seg); assumption.
Qed.

Lemma wf_sample : wf_dataset sample.
Proof. repeat split; reflexivity. Qed.

Lemma by_id_lookup_witness :
  exists body,
    responds (GET "/api/episodes/2" []) sample (json_reply 200 body) /\
    payload_of Episodes ex_girlfriend body.
Proof.
  assert (Hseg : "2" <> "random") by discriminate.
  apply (proj1 (by_id_lookup Episodes (GET "/api/episodes/2" []) sample "2"
                             wf_sample eq_refl eq_refl Hseg)
               2 [pilot] ex_girlfriend [stake_out]).
  - reflexivity.
  - reflexivity.
  - reflexivity.
  - intros x [<- | []] H. discriminate H.
Defined.

(** ** A character with its quotes *)

(** C6.  On a dataset that follows the data model, a GET request to
    [/api/characters/<seg>] whose segment parses to the [id] of a character
    (the first record with that [id]) is answered by 200 and an object that
    has every property of the character's record, unchanged, and a property
    [quotes]: the array of exactly those quotes, in table order, whose
    [character] string contains the character's [name] when case is
    ignored. *)
Theorem character_with_quotes (req : Request) (w : World) (seg : string) (n : Z)
        (pre : list value) (props : list (string * value)) (post : list value) :
  wf_dataset w ->
  method req = "GET" ->
  pathParts_of req = ["api"; "characters"; seg] ->
  seg <> "random" ->
  parseInt seg = NInt n ->
  characters w = (pre ++ VObj props :: post)%list ->
  has_id n (VObj props) ->
  (forall x, In x pre -> ~ has_id n x) ->
  exists name qs body,
    lookup props "name" = Some (VStr name) /\
    responds req w (json_reply 200 (VObj body)) /\
    lookup body "quotes" = Some (VArr qs) /\
    (forall k, k <> "quotes" -> lookup body k = lookup props k) /\
    restricts (mentions name) (quotes w) qs.
Proof.
  intros Hwf Hget Hpath Hseg Hn Hc Hrec Hpre.
  destruct (wf_character_name w props Hwf) as [name Hname].
  { rewrite Hc. apply in_or_app. right. left. reflexivity. }
  exists name, (filter (mentionsb name) (quotes w)),
    (set_prop props "quotes" (VArr (filter (mentionsb name) (quotes w)))).
  split; [exact Hname |]. split; [| split; [| split]].
  - apply responds_sendJSON_object.
    rewrite (by_id_route req Characters seg Hget Hpath), Hn
      by (apply String.eqb_neq; exact Hseg).
    apply (by_id_hit_character _ w pre props post name);
      [apply Hwf | exact Hc | | apply id_is_hit; exact Hrec | exact Hname].
    intros x Hx. apply id_is_miss; [| apply Hpre; exact Hx].
    apply (wf_table w Characters); [exact Hwf |].
    simpl. rewrite Hc. apply in_or_app. left. exact Hx.
  - apply lookup_set_prop_same.
  - intros k Hk. apply lookup_set_prop_other. exact Hk.
  - apply filter_restricts. intros x _. apply mentionsb_spec.
Qed.

Lemma character_with_quotes_witness :
  exists name qs body,
    lookup [("id", VNum (NInt 1)); ("name", VStr "Jerry"); ("actor", VStr "Jerry Seinfeld")]
           "name" = Some (VStr name) /\
    responds (GET "/api/characters/1" []) sample (json_reply 200 (VObj body)) /\
    lookup body "quotes" = Some (VArr qs) /\
    (forall k, k <> "quotes" ->
               lookup body k =
               lookup [("id", VNum (NInt 1)); ("name", VStr "Jerry");
                       ("actor", VStr "Jerry Seinfeld")] k) /\
    restricts (mentions name) (quotes sample) qs.
Proof.
  assert (Hseg : "1" <> "random") by discriminate.
  apply (character_with_quotes (GET "/api/characters/1" []) sample "1" 1
           [] _ [george] wf_sample eq_refl eq_refl Hseg).
  - reflexivity.
  - reflexivity.
  - reflexivity.
  - intros x [].
Defined.

(** ** Segments that start with digits *)

(** C10, as the specification words it, fails on a hexadecimal prefix:
    the segment [0xA] starts with the decimal digit 0 followed by
    non-digits, yet it is looked up as 10, not as 0. *)
Lemma hexadecimal_segment_lookup :
  all_digits 10 "0" = true /\
  is_decimal_digit "x" = false /\
  is_decimal_digit "A" = false /\
  responds (GET "/api/episodes/0" []) specials
    (json_reply 200
       (VObj [("id", VNum (NInt 0)); ("season", VNum (NInt 0)); ("title", VStr "Pitch")])) /\
  responds (GET "/api/episodes/0xA" []) specials
    (json_reply 200
       (VObj [("id", VNum (NInt 10)); ("season", VNum (NInt 1)); ("title", VStr "Clip show")])) /\
  handleRequest (GET "/api/episodes/0xA" []) specials <>
  handleRequest (GET "/api/episodes/0" []) specials.
Proof.
  repeat split; try reflexivity.
  intros H. vm_compute in H. discriminate H.
Qed.

(** C10, amended.  For each of the three resources, a by-id segment made
    of decimal digits followed by a code unit that is not a decimal digit
    (and anything after it), and that does not start with [0x] or [0X], is
    parsed to the number its digits denote, and the request is handled
    exactly as the request for the digits alone: same outcome, same
    response.  So [/api/episodes/2abc] returns the episode with id 2. *)
Theorem digits_prefix_lookup (r : resource) (req1 req2 : Request) (w : World)
        (digits : string) (c : ascii) (rest : string) :
  all_digits 10 digits = true ->
  is_decimal_digit c = false ->
  hex_prefixed (digits ++ String c rest) = false ->
  method req1 = "GET" ->
  method req2 = "GET" ->
  pathParts_of req1 = ["api"; root_of r; (digits ++ String c rest)%string] ->
  pathParts_of req2 = ["api"; root_of r; digits] ->
  parseInt (digits ++ String c rest) = NInt (mathInt 10 (leading_digits 10 digits)) /\
  handleRequest req1 w = handleRequest req2 w.
Proof.
  intros Hd Hc Hx Hm1 Hm2 Hp1 Hp2.
  pose proof (parseInt_digits_then digits c rest Hd Hc Hx) as Heq.
  split; [rewrite Heq; apply parseInt_digits; exact Hd |].
  destruct digits as [| a s]; [discriminate Hd |].
  destruct (all_digits_cons a s Hd) as [Ha _].
  destruct (decimal_digit_first a s Ha) as (_ & _ & Hr2).
  destruct (decimal_digit_first a (s ++ String c rest) Ha) as (_ & _ & Hr1).
  rewrite (by_id_route req1 r _ Hm1 Hp1 Hr1), (by_id_route req2 r _ Hm2 Hp2 Hr2), Heq.
  reflexivity.
Qed.

Lemma digits_prefix_lookup_witness :
  (parseInt "2abc" = NInt 2 /\
   handleRequest (GET "/api/episodes/2abc" []) sample =
   handleRequest (GET "/api/episodes/2" []) sample) /\
  responds (GET "/api/episodes/2abc" []) sample (json_reply 200 ex_girlfriend).
Proof.
  split.
  - apply (digits_prefix_lookup Episodes (GET "/api/episodes/2abc" [])
             (GET "/api/episodes/2" []) sample "2" "a" "bc"); reflexivity.
  - split; reflexivity.
Defined.

(** ** The substring filter on records *)

Lemma ToString_cons (x : value) (l : list value) :
  ToString (VArr (x :: l)) =
  (let? a := match x with
             | VUndefined | VNull => Ok EmptyString
             | _ => ToString x
             end in
   match l with
   | [] => Ok a
   | _ => let? b := ToString (VArr l) in Ok (a ++ "," ++ b)%string
   end)%result.
Proof. reflexivity. Qed.

(** Induction on values, with the hypothesis for every element of an
    array and every property of an object. *)
Lemma value_nested_ind (P : value -> Prop)
    (HUndefined : P VUndefined) (HNull : P VNull)
    (HBool : forall b, P (VBool b)) (HNum : forall n, P (VNum n))
    (HStr : forall s, P (VStr s))
    (HArr : forall items, Forall P items -> P (VArr items))
    (HObj : forall props, Forall (fun p => P (snd p)) props -> P (VObj props))
  : forall v, P v.
Proof.
  exact (fix F (v : value) : P v :=
    match v with
    | VUndefined => HUndefined
    | VNull => HNull
    | VBool b => HBool b
    | VNum n => HNum n
    | VStr s => HStr s
    | VArr items =>
        HArr items
          ((fix G (l : list value) : Forall P l :=
              match l with
              | [] => Forall_nil P
              | x :: l' => Forall_cons x (F x) (G l')
              end) items)
    | VObj props =>
        HObj props
          ((fix G (l : list (string * value)) : Forall (fun p => P (snd p)) l :=
              match l with
              | [] => Forall_nil _
              | p :: l' => Forall_cons p (F (snd p)) (G l')
              end) props)
    end).
Qed.

(** A convertible value has a string form. *)
Lemma ToString_convertible :
  forall v, convertible v = true -> exists s, ToString v = Ok s.
Proof.
  induction v as [| | b | n | s | items IH | props _] using value_nested_ind; intros H.
  - eexists; reflexivity.
  - eexists; reflexivity.
  - destruct b; eexists; reflexivity.
  - eexists; reflexivity.
  - eexists; reflexivity.
  - induction IH as [| x l Hx _ IHl].
    + eexists; reflexivity.
    + simpl in H. apply andb_prop in H as [Hcx Hl].
      destruct (IHl Hl) as [sl Hsl]. destruct (Hx Hcx) as [sx Hsx].
      rewrite ToString_cons.
      assert (Ha : exists a, match x with
                             | VUndefined | VNull => Ok EmptyString
                             | _ => ToString x
                             end = Ok a)
        by (destruct x; eauto).
      destruct Ha as [a ->]. cbn [rbind].
      destruct l as [| y l']; [eauto |]. rewrite Hsl. cbn [rbind]. eauto.
  - simpl in *. destruct (has_own props "toString"); [discriminate H | eauto].
Qed.

Lemma toString_printable (v : value) :
  printable v = true -> exists s, toString_method v = Ok s.
Proof.
  intros H. destruct v; try discriminate H;
    apply (ToString_convertible _ H).
Qed.

Lemma matchesb_spec (q : string) (v : value) :
  matchesb q v = true <-> matches q v.
Proof.
  unfold matches, matchesb. split.
  - destruct v as [| | | | | | props]; try discriminate.
    intros H. apply existsb_exists in H as [x [Hin Hx]].
    unfold field_matchesb in Hx.
    destruct (toString_method x) as [s |] eqn:Es; [| discriminate Hx].
    exists props, x, s. repeat split; try assumption. apply includes_ci. exact Hx.
  - intros (props & x & s & -> & Hin & Hs & Hc).
    apply existsb_exists. exists x. split; [exact Hin |].
    unfold field_matchesb. rewrite Hs. apply includes_ci. exact Hc.
Qed.

Lemma item_matches_record (q : string) (item : value) :
  is_record item = true ->
  item_matches (QStr q) item = Ok (matchesb q item).
Proof.
  intros Hr. destruct item as [| | | | | | props]; try discriminate Hr.
  unfold item_matches, matchesb. simpl in *.
  apply Array_some_pure. intros x Hx.
  pose proof (proj1 (forallb_forall _ _) Hr x Hx) as Hp.
  destruct (toString_printable x Hp) as [s Hs].
  unfold field_matchesb. rewrite Hs. reflexivity.
Qed.

Lemma filterByQuery_records (array : list value) (q : string) :
  nonempty q = true ->
  (forall x, In x array -> is_record x = true) ->
  filterByQuery array (QStr q) = Ok (filter (matchesb q) array).
Proof.
  intros Hq Hr. unfold filterByQuery. simpl. rewrite Hq. simpl.
  apply (Array_filter_pure (item_matches (QStr q))).
  intros x Hx. apply item_matches_record. apply Hr. exact Hx.
Qed.

Lemma filterByQuery_falsy (array : list value) (q : qvalue) :
  qtruthy q = false -> filterByQuery array q = Ok array.
Proof. intros Hq. unfold filterByQuery. rewrite Hq. reflexivity. Qed.

(** ** Episodes by season *)




Lemma episodes_collection (req : Request) :
  method req = "GET" ->
  pathParts_of req = ["api"; "episodes"] ->
  handleRequest req = handleEpisodes ["api"; "episodes"] (query req).
Proof. intros Hm Hp. rewrite (handleRequest_GET req Hm), Hp. reflexivity. Qed.


(** An empty [season] parameter is falsy: no season filter is applied. *)
Lemma episodes_empty_season (w : World) (q : list (string * qvalue)) :
  query_get q "season" = QStr "" ->
  query_get q "search" = QUndef ->
  handleEpisodes ["api"; "episodes"] q w =
  sendJSON (VObj [("total", length_of (episodes w)); ("episodes", VArr (episodes w))]) 200 w.
Proof.
  intros Hseason Hsearch. unfold handleEpisodes. rewrite bind_gets, Hseason, Hsearch.
  reflexivity.
Qed.



(** ** Statistics *)

Lemma wf_episode_season (ep : value) :
  wf_episode ep = true -> get_prop ep "season" = Ok (VNum (NInt (season_of ep))).
Proof.
  intros H.
  destruct ep as [| | | | | | props]; try discriminate H. simpl in *.
  destruct (lookup props "season") as [[| | | [z | | |] | | |] |]; try discriminate H.
  reflexivity.
Qed.

Lemma has_season_unique (ep : value) (s : Z) :
  wf_episode ep = true -> has_season s ep -> s = season_of ep.
Proof.
  intros Hwf Hs. unfold has_season in Hs.
  rewrite (wf_episode_season ep Hwf) in Hs. injection Hs as Hs. auto.
Qed.

(** The running maximum Math.max keeps over integer arguments. *)
Lemma fold_number_max_int (zs : list Z) (a : Z) :
  fold_left number_max (map NInt zs) (NInt a) = NInt (fold_left Z.max zs a).
Proof.
  revert a. induction zs as [| z zs IH]; intros a; simpl; [reflexivity |].
  destruct (Z.leb_spec a z).
  - rewrite IH. f_equal. f_equal. lia.
  - rewrite IH. f_equal. f_equal. lia.
Qed.

Lemma fold_Z_max (zs : list Z) (a : Z) :
  a <= fold_left Z.max zs a /\
  (forall z, In z zs -> z <= fold_left Z.max zs a) /\
  (fold_left Z.max zs a = a \/ In (fold_left Z.max zs a) zs).
Proof.
  revert a. induction zs as [| z zs IH]; intros a; simpl.
  - split; [lia | split; [intros z [] | left; reflexivity]].
  - destruct (IH (Z.max a z)) as (H1 & H2 & H3). split; [lia | split].
    + intros y [<- | Hy]; [lia | apply H2; exact Hy].
    + destruct H3 as [H3 | H3]; [| right; right; exact H3].
      rewrite H3. destruct (Z.max_spec a z) as [[_ ->] | [_ ->]]; auto.
Qed.

Lemma fold_number_max (zs : list Z) :
  let m := fold_left number_max (map NInt zs) NNegInf in
  (forall z, In z zs -> number_leb (NInt z) m = true) /\
  (zs <> [] -> exists z, In z zs /\ m = NInt z) /\
  (zs = [] -> m = NNegInf).
Proof.
  destruct zs as [| z zs]; simpl.
  - split; [intros z [] | split; [intros H; contradiction | reflexivity]].
  - rewrite fold_number_max_int.
    destruct (fold_Z_max zs z) as (H1 & H2 & H3).
    split; [| split; [| discriminate]].
    + intros y [<- | Hy]; simpl; apply Z.leb_le; [exact H1 | apply H2; exact Hy].
    + intros _. exists (fold_left Z.max zs z). split; [| reflexivity].
      destruct H3 as [-> | H3]; auto.
Qed.

Lemma Math_max_integers (zs : list Z) :
  Math_max (map (fun z => VNum (NInt z)) zs) =
  Ok (fold_left number_max (map NInt zs) NNegInf).
Proof.
  unfold Math_max.
  rewrite (Array_map_pure ToNumber (fun v => match v with VNum n => n | _ => NNaN end))
    by (intros x Hx; apply in_map_iff in Hx as [z [<- _]]; reflexivity).
  rewrite map_map. reflexivity.
Qed.

Lemma stats_route (req : Request) (rest : list string) :
  method req = "GET" ->
  pathParts_of req = "api" :: "stats" :: rest ->
  handleRequest req = handleStats.
Proof. intros Hm Hp. rewrite (handleRequest_GET req Hm), Hp. reflexivity. Qed.

Lemma handleStats_run (w : World) :
  forallb wf_episode (episodes w) = true ->
  handleStats w =
  sendJSON (VObj [("totalCharacters", length_of (characters w));
                  ("totalEpisodes", length_of (episodes w));
                  ("totalQuotes", length_of (quotes w));
                  ("seasons", VNum (fold_left number_max
                                      (map NInt (map season_of (episodes w))) NNegInf));
                  ("apiVersion", VStr "1.0.0")]) 200 w.
Proof.
  intros He. unfold handleStats. rewrite !bind_gets.
  rewrite (Array_map_pure _ (fun ep => VNum (NInt (season_of ep))))
    by (intros x Hx; apply wf_episode_season; exact (proj1 (forallb_forall _ _) He x Hx)).
  cbn [rbind]. rewrite <- (map_map season_of (fun z => VNum (NInt z))).
  rewrite Math_max_integers. reflexivity.
Qed.

(** C7.  On a dataset that follows the data model, a GET request to
    [/api/stats] is answered by 200 and the object [{totalCharacters,
    totalEpisodes, totalQuotes, seasons, apiVersion}] in which the three
    totals are the lengths of the three tables, [apiVersion] is ["1.0.0"],
    and [seasons] is the maximum of the [season] values: no episode has a
    larger season, and when there is an episode, some episode has exactly
    that season.  (With no episode at all, [seasons] is minus infinity, the
    value of Math.max on no argument.) *)
Theorem stats_totals (req : Request) (w : World) (rest : list string) :
  wf_dataset w ->
  method req = "GET" ->
  pathParts_of req = "api" :: "stats" :: rest ->
  exists m,
    responds req w
      (json_reply 200
         (VObj [("totalCharacters", VNum (NInt (Z.of_nat (List.length (characters w)))));
                ("totalEpisodes", VNum (NInt (Z.of_nat (List.length (episodes w)))));
                ("totalQuotes", VNum (NInt (Z.of_nat (List.length (quotes w)))));
                ("seasons", VNum m);
                ("apiVersion", VStr "1.0.0")])) /\
    (forall ep s, In ep (episodes w) -> has_season s ep -> number_leb (NInt s) m = true) /\
    (episodes w <> [] -> exists ep s, In ep (episodes w) /\ has_season s ep /\ m = NInt s) /\
    (episodes w = [] -> m = NNegInf).
Proof.
  intros (_ & He & _) Hget Hpath.
  exists (fold_left number_max (map NInt (map season_of (episodes w))) NNegInf).
  destruct (fold_number_max (map season_of (episodes w))) as (Hub & Hatt & Hnone).
  split; [| split; [| split]].
  - apply responds_sendJSON_object. rewrite (stats_route req rest Hget Hpath).
    apply handleStats_run. exact He.
  - intros ep s Hin Hs.
    rewrite (has_season_unique ep s (proj1 (forallb_forall _ _) He ep Hin) Hs).
    apply Hub. apply in_map. exact Hin.
  - intros Hne. destruct Hatt as (z & Hz & Hm).
    + intros Hmap. apply map_eq_nil in Hmap. contradiction.
    + apply in_map_iff in Hz as (ep & <- & Hin). exists ep, (season_of ep).
      split; [exact Hin |]. split; [| exact Hm].
      apply wf_episode_season. exact (proj1 (forallb_forall _ _) He ep Hin).
  - intros E. apply Hnone. rewrite E. reflexivity.
Qed.

Lemma stats_totals_witness :
  exists m,
    responds (GET "/api/stats" []) sample
      (json_reply 200
         (VObj [("totalCharacters", VNum (NInt 2));
                ("totalEpisodes", VNum (NInt 3));
                ("totalQuotes", VNum (NInt 3));
                ("seasons", VNum m);
                ("apiVersion", VStr "1.0.0")])) /\
    (forall ep s, In ep (episodes sample) -> has_season s ep -> number_leb (NInt s) m = true) /\
    (episodes sample <> [] ->
     exists ep s, In ep (episodes sample) /\ has_season s ep /\ m = NInt s) /\
    (episodes sample = [] -> m = NNegInf).
Proof.
  apply (stats_totals (GET "/api/stats" []) sample [] wf_sample); reflexivity.
Defined.

(** ** Request handling is not total *)

Lemma searchable_sample : searchable sample.
Proof. repeat split; reflexivity. Qed.

(** C3, as the specification words it, fails: nothing in [handleRequest]
    catches an exception.  On a dataset of searchable records, the GET
    request [/api/characters?search=a&search=b], whose [search] parameter
    is parsed to the array [["a", "b"]], makes the filter callback call
    [query.toLowerCase()] on that array: a TypeError leaves the handler
    before any response is written. *)
Lemma repeated_search_parameter_throws :
  wf_dataset sample /\
  searchable sample /\
  method (GET "/api/characters" [("search", QArr ["a"; "b"])]) = "GET" /\
  handleRequest (GET "/api/characters" [("search", QArr ["a"; "b"])]) sample =
  (Throw TypeError, sample).
Proof.
  split; [exact wf_sample | split; [exact searchable_sample | split; reflexivity]].
Qed.

(** * Further properties of the handlers *)

(** ** What a request leaves behind *)

Section Keeps.

Context {B : Type} (f : World -> B).

Lemma keeps_ret {A : Type} (a : A) : keeps f (ret a).
Proof. intros w; reflexivity. Qed.

Lemma keeps_lift {A : Type} (r : Result A) : keeps f (lift r).
Proof. intros w; reflexivity. Qed.

Lemma keeps_gets {A : Type} (g : World -> A) : keeps f (gets g).
Proof. intros w; reflexivity. Qed.

Lemma keeps_bind {A C : Type} (m : M A) (k : A -> M C) :
  keeps f m -> (forall a, keeps f (k a)) -> keeps f (bind m k).
Proof.
  intros Hm Hk w. unfold bind.
  specialize (Hm w). destruct (m w) as [[a | e] w1]; simpl in *.
  - rewrite Hk. exact Hm.
  - exact Hm.
Qed.

Lemma keeps_if {A : Type} (b : bool) (m1 m2 : M A) :
  keeps f m1 -> keeps f m2 -> keeps f (if b then m1 else m2).
Proof. destruct b; auto. Qed.

End Keeps.

Lemma silent_getRandomItem (array : list value) : keeps res (getRandomItem array).
Proof. intros w; reflexivity. Qed.

Lemma all_or_nothing_sendJSON (data : value) : all_or_nothing (sendJSON data 200).
Proof.
  intros w. rewrite sendJSON_run. split; [reflexivity |].
  right. left. reflexivity.
Qed.

Lemma all_or_nothing_sendError (message : string) (statusCode : Z) :
  statusCode = 400 \/ statusCode = 404 \/ statusCode = 405 ->
  all_or_nothing (sendError message statusCode).
Proof.
  intros Hs w. rewrite sendError_run. split; [reflexivity |].
  right. right. exists statusCode, message. repeat split; auto.
Qed.

Lemma all_or_nothing_bind {A : Type} (m : M A) (k : A -> M unit) :
  keeps res m -> (forall a, all_or_nothing (k a)) -> all_or_nothing (bind m k).
Proof.
  intros Hm Hk w. unfold bind.
  specialize (Hm w). destruct (m w) as [[a | e] w1]; simpl in *.
  - specialize (Hk a w1). destruct (k a w1) as [[u | e] w2].
    + exact Hk.
    + rewrite Hk. exact Hm.
  - exact Hm.
Qed.

Lemma all_or_nothing_if (b : bool) (m1 m2 : M unit) :
  all_or_nothing m1 -> all_or_nothing m2 -> all_or_nothing (if b then m1 else m2).
Proof. destruct b; auto. Qed.

Create HintDb response discriminated.

#[local] Hint Resolve keeps_ret keeps_lift keeps_gets keeps_if silent_getRandomItem
  all_or_nothing_sendJSON all_or_nothing_if : response.
#[local] Hint Extern 1 (all_or_nothing (sendError _ _)) =>
  apply all_or_nothing_sendError; auto : response.
#[local] Hint Extern 2 (all_or_nothing (bind _ _)) =>
  apply all_or_nothing_bind; [ | intro ] : response.
#[local] Hint Extern 2 (keeps _ (bind _ _)) =>
  apply keeps_bind; [ | intro ] : response.

Ltac by_shape parts db :=
  destruct parts as [| ? [| ? [| ? [| ? ?]]]]; simpl; auto 12 with db.

Lemma all_or_nothing_handleCharacters (pathParts : list string) (q : list (string * qvalue)) :
  all_or_nothing (handleCharacters pathParts q).
Proof. unfold handleCharacters. by_shape pathParts response. Qed.

Lemma all_or_nothing_handleEpisodes (pathParts : list string) (q : list (string * qvalue)) :
  all_or_nothing (handleEpisodes pathParts q).
Proof. unfold handleEpisodes. by_shape pathParts response. Qed.

Lemma all_or_nothing_handleQuotes (pathParts : list string) (q : list (string * qvalue)) :
  all_or_nothing (handleQuotes pathParts q).
Proof. unfold handleQuotes. by_shape pathParts response. Qed.

Lemma all_or_nothing_handleStats : all_or_nothing handleStats.
Proof. unfold handleStats. auto 12 with response. Qed.

Lemma all_or_nothing_preflight :
  all_or_nothing (bind (writeHead 200 cors_headers) (fun _ => end_ None)).
Proof. intros w. split; [reflexivity | left; split; reflexivity]. Qed.

(** X1.  Every request, whatever its method, path, query and the contents
    of the tables, ends in one of two ways: the handler returns and the
    response is complete (ended, with the CORS headers, and either the
    preflight answer, a JSON answer with status 200, or an error envelope
    [{error: message}] with status 400, 404 or 405), or the handler throws
    and the response object is exactly as it was: no header and no body is
    written before an exception. *)
Theorem response_all_or_nothing (req : Request) (w : World) :
  match handleRequest req w with
  | (Ok _, w') => complete_response (res w')
  | (Throw _, w') => res w' = res w
  end.
Proof.
  revert w. change (all_or_nothing (handleRequest req)). unfold handleRequest.
  destruct (pathname req); [| intros w; reflexivity].
  apply all_or_nothing_if; [exact all_or_nothing_preflight |].
  apply all_or_nothing_if; [auto with response |].
  destruct (pathParts_of req) as [| root [| endpoint rest]]; auto with response.
  apply all_or_nothing_if; [| auto with response].
  apply all_or_nothing_if; [apply all_or_nothing_handleCharacters |].
  apply all_or_nothing_if; [apply all_or_nothing_handleEpisodes |].
  apply all_or_nothing_if; [apply all_or_nothing_handleQuotes |].
  apply all_or_nothing_if; [apply all_or_nothing_handleStats | auto with response].
Qed.

Section KeepsOutsideResponse.

Context {B : Type} (f : World -> B).
Hypothesis f_set_res : forall r w, f (set_res r w) = f w.

Lemma keeps_writeHead (statusCode : Z) (hs : list (string * string)) :
  keeps f (writeHead statusCode hs).
Proof. intros w. apply f_set_res. Qed.

Lemma keeps_end (data : option value) : keeps f (end_ data).
Proof. intros w. apply f_set_res. Qed.

Lemma keeps_sendJSON (data : value) (statusCode : Z) : keeps f (sendJSON data statusCode).
Proof. intros w. rewrite sendJSON_run. apply f_set_res. Qed.

Lemma keeps_sendError (message : string) (statusCode : Z) :
  keeps f (sendError message statusCode).
Proof. apply keeps_sendJSON. Qed.

End KeepsOutsideResponse.

Lemma keeps_rng_getRandomItem (array : list value) : keeps rng (getRandomItem array).
Proof. intros w; reflexivity. Qed.

Create HintDb source discriminated.

#[local] Hint Resolve keeps_ret keeps_lift keeps_gets keeps_if keeps_rng_getRandomItem : source.
#[local] Hint Extern 1 (keeps _ (sendJSON _ _)) =>
  apply keeps_sendJSON; reflexivity : source.
#[local] Hint Extern 1 (keeps _ (sendError _ _)) =>
  apply keeps_sendError; reflexivity : source.
#[local] Hint Extern 1 (keeps _ (writeHead _ _)) =>
  apply keeps_writeHead; reflexivity : source.
#[local] Hint Extern 1 (keeps _ (end_ _)) =>
  apply keeps_end; reflexivity : source.
#[local] Hint Extern 2 (keeps _ (bind _ _)) =>
  apply keeps_bind; [ | intro ] : source.

Lemma keeps_rng_handleCharacters (pathParts : list string) (q : list (string * qvalue)) :
  keeps rng (handleCharacters pathParts q).
Proof. unfold handleCharacters. by_shape pathParts source. Qed.

Lemma keeps_rng_handleEpisodes (pathParts : list string) (q : list (string * qvalue)) :
  keeps rng (handleEpisodes pathParts q).
Proof. unfold handleEpisodes. by_shape pathParts source. Qed.

Lemma keeps_rng_handleQuotes (pathParts : list string) (q : list (string * qvalue)) :
  keeps rng (handleQuotes pathParts q).
Proof. unfold handleQuotes. by_shape pathParts source. Qed.

Lemma keeps_rng_handleRequest (req : Request) : keeps rng (handleRequest req).
Proof.
  unfold handleRequest. destruct (pathname req); [| auto with source].
  apply keeps_if; [auto with source |].
  apply keeps_if; [auto with source |].
  destruct (pathParts_of req) as [| root [| endpoint rest]]; auto with source.
  apply keeps_if; [| auto with source].
  apply keeps_if; [apply keeps_rng_handleCharacters |].
  apply keeps_if; [apply keeps_rng_handleEpisodes |].
  apply keeps_if; [apply keeps_rng_handleQuotes |].
  apply keeps_if; [unfold handleStats; auto 12 with source | auto with source].
Qed.

(** How many random numbers a route handler draws, by the shape of the path. *)
Lemma drawn_handleCharacters (pathParts : list string) (q : list (string * qvalue)) (w : World) :
  drawn (snd (handleCharacters pathParts q w)) =
  match pathParts with
  | [_; _; seg] => if String.eqb seg "random" then S (drawn w) else drawn w
  | _ => drawn w
  end.
Proof.
  destruct pathParts as [| a [| b [| seg [| d rest]]]]; try reflexivity.
  - apply (keeps_bind drawn); [auto with source | intro].
    apply (keeps_bind drawn); auto with source.
  - unfold handleCharacters. destruct (String.eqb seg "random"); [reflexivity |].
    revert w. change (keeps drawn (by_id Characters (parseInt seg))).
    unfold by_id. auto 12 with source.
Qed.

Lemma drawn_handleEpisodes (pathParts : list string) (q : list (string * qvalue)) (w : World) :
  drawn (snd (handleEpisodes pathParts q w)) =
  match pathParts with
  | [_; _; seg] => if String.eqb seg "random" then S (drawn w) else drawn w
  | _ => drawn w
  end.
Proof.
  destruct pathParts as [| a [| b [| seg [| d rest]]]]; try reflexivity.
  - revert w. change (keeps drawn (handleEpisodes [a; b] q)).
    unfold handleEpisodes. auto 12 with source.
  - unfold handleEpisodes. destruct (String.eqb seg "random"); [reflexivity |].
    revert w. change (keeps drawn (by_id Episodes (parseInt seg))).
    unfold by_id. auto 12 with source.
Qed.

Lemma drawn_handleQuotes (pathParts : list string) (q : list (string * qvalue)) (w : World) :
  drawn (snd (handleQuotes pathParts q w)) =
  match pathParts with
  | [_; _; seg] => if String.eqb seg "random" then S (drawn w) else drawn w
  | _ => drawn w
  end.
Proof.
  destruct pathParts as [| a [| b [| seg [| d rest]]]]; try reflexivity.
  - revert w. change (keeps drawn (handleQuotes [a; b] q)).
    unfold handleQuotes. auto 12 with source.
  - unfold handleQuotes. destruct (String.eqb seg "random"); [reflexivity |].
    revert w. change (keeps drawn (by_id Quotes (parseInt seg))).
    unfold by_id. auto 12 with source.
Qed.

Lemma keeps_drawn_handleStats : keeps drawn handleStats.
Proof. unfold handleStats. auto 12 with source. Qed.

(** X2.  [Math.random] is called by the three random routes and by nothing
    else: a GET request to [/api/characters/random], [/api/episodes/random]
    or [/api/quotes/random] draws exactly one number from the random
    source, and every other request (any method, any path, whether it
    returns or throws) draws none.  The source itself is never replaced. *)
Theorem random_source_use (req : Request) (w : World) :
  rng (snd (handleRequest req w)) = rng w /\
  drawn (snd (handleRequest req w)) =
  if is_random_route req then S (drawn w) else drawn w.
Proof.
  split; [apply keeps_rng_handleRequest |].
  unfold handleRequest, is_random_route.
  destruct (pathname req) as [path |] eqn:Ep;
    [| unfold pathParts_of; rewrite Ep, andb_false_r; reflexivity].
  destruct (String.eqb (method req) "OPTIONS") eqn:Eo.
  { apply String.eqb_eq in Eo. rewrite Eo. reflexivity. }
  destruct (String.eqb (method req) "GET") eqn:Eg; [| reflexivity].
  cbn [negb andb].
  destruct (pathParts_of req) as [| root [| endpoint rest]]; try reflexivity.
  - destruct (String.eqb root "api"); reflexivity.
  - destruct (String.eqb root "api");
      [| destruct rest as [| ? [| ? ?]]; reflexivity].
    cbn [andb].
    destruct (String.eqb endpoint "characters").
    { rewrite drawn_handleCharacters. destruct rest as [| seg [| ? ?]]; reflexivity. }
    destruct (String.eqb endpoint "episodes").
    { rewrite drawn_handleEpisodes. destruct rest as [| seg [| ? ?]]; reflexivity. }
    destruct (String.eqb endpoint "quotes").
    { rewrite drawn_handleQuotes. destruct rest as [| seg [| ? ?]]; reflexivity. }
    cbn [orb andb].
    destruct (String.eqb endpoint "stats");
      [rewrite keeps_drawn_handleStats | ]; destruct rest as [| ? [| ? ?]]; reflexivity.
Qed.

(** X3.  The path is split before the method is looked at, and the method
    before anything else.  A request whose target has no path throws a
    TypeError with nothing written, whatever its method, OPTIONS included.
    A request with a path whose method is not GET never reads the path's
    segments, the query or the tables and never throws: OPTIONS is
    answered by status 200 with the three CORS headers and no body, every
    other method by status 405 and [{error: "Method not allowed"}]. *)
Theorem method_gate (req : Request) (w : World) :
  (pathname req = None -> handleRequest req w = (Throw TypeError, w)) /\
  (forall path,
      pathname req = Some path ->
      method req <> "GET" ->
      handleRequest req w =
      (Ok tt,
       set_res (if String.eqb (method req) "OPTIONS" then preflight_reply
                else json_reply 405 (error_body "Method not allowed")) w)).
Proof.
  split.
  - intros Hp. unfold handleRequest. rewrite Hp. reflexivity.
  - intros path Hp Hm. apply String.eqb_neq in Hm. unfold handleRequest. rewrite Hp, Hm.
    destruct (String.eqb (method req) "OPTIONS"); reflexivity.
Qed.

Lemma method_gate_witness :
  handleRequest (mkRequest "DELETE" (Some "/api/characters/1") [("search", QArr ["a"; "b"])])
                (mkWorld [VNull] [VNull] [VNull] fresh (fun _ => 0%Q) 0) =
  (Ok tt,
   set_res (json_reply 405 (error_body "Method not allowed"))
           (mkWorld [VNull] [VNull] [VNull] fresh (fun _ => 0%Q) 0)).
Proof.
  apply (proj2 (method_gate
                  (mkRequest "DELETE" (Some "/api/characters/1") [("search", QArr ["a"; "b"])])
                  (mkWorld [VNull] [VNull] [VNull] fresh (fun _ => 0%Q) 0))
               "/api/characters/1"); [reflexivity | discriminate].
Defined.

(** ** Path segments *)

Lemma String_split_cons (sep : ascii) (s : string) :
  exists p ps, String_split sep s = p :: ps.
Proof.
  induction s as [| c s IH]; simpl; [eauto |].
  destruct (Ascii.eqb c sep); [eauto |].
  destruct IH as (p & ps & ->). eauto.
Qed.

Lemma String_split_app (sep : ascii) (a b : string) :
  String_split sep (a ++ String sep b) = (String_split sep a ++ String_split sep b)%list.
Proof.
  induction a as [| c a IH]; simpl.
  - rewrite Ascii.eqb_refl. reflexivity.
  - destruct (Ascii.eqb c sep); [rewrite IH; reflexivity |].
    rewrite IH. destruct (String_split_cons sep a) as (p & ps & ->). reflexivity.
Qed.

Lemma String_split_slash_free (s : string) :
  slash_free s = true -> String_split "/" s = [s].
Proof.
  induction s as [| c s IH]; simpl; [reflexivity |].
  intros H. apply andb_prop in H as [Hc Hs].
  apply negb_true_iff in Hc. rewrite Hc, (IH Hs). reflexivity.
Qed.

Lemma segments_app (a b : string) :
  segments (a ++ String "/" b) = (segments a ++ segments b)%list.
Proof. unfold segments. rewrite String_split_app. apply filter_app. Qed.

Lemma segments_segment (s : string) :
  segment s = true -> segments s = [s].
Proof.
  intros H. apply andb_prop in H as [Hn Hs].
  unfold segments. rewrite (String_split_slash_free s Hs). simpl. rewrite Hn. reflexivity.
Qed.

Lemma segments_join (segs : list string) :
  forallb segment segs = true -> segments (join "/" segs) = segs.
Proof.
  induction segs as [| s [| t rest] IH]; intros H.
  - reflexivity.
  - simpl in *. apply andb_prop in H as [H _]. apply segments_segment. exact H.
  - change (join "/" (s :: t :: rest)) with (s ++ String "/" (join "/" (t :: rest)))%string.
    cbn [forallb] in H. apply andb_prop in H as [Hs Hrest].
    rewrite segments_app, (segments_segment s Hs), (IH Hrest). reflexivity.
Qed.

Lemma segments_only_slashes (s : string) :
  only_slashes s = true -> segments s = [].
Proof.
  induction s as [| c s IH]; [reflexivity |].
  simpl. intros H. apply andb_prop in H as [Hc Hs].
  apply Ascii.eqb_eq in Hc. subst c.
  change (String "/" s) with (EmptyString ++ String "/" s)%string.
  rewrite segments_app. exact (IH Hs).
Qed.

(** X4.  The path is read as its non-empty pieces between slashes, so
    slashes in excess do not matter: a path written [/s1/s2/.../sn] from
    segments (non-empty, without a slash) has exactly those segments as its
    [pathParts], and so has the same path with a slash added at the end,
    with the leading slash left out, or with any slash doubled. *)
Theorem path_segments (m : string) (q : list (string * qvalue)) (segs : list string) :
  forallb segment segs = true ->
  pathParts_of (mkRequest m (Some ("/" ++ join "/" segs)) q) = segs /\
  pathParts_of (mkRequest m (Some ("/" ++ join "/" segs ++ "/")) q) = segs /\
  pathParts_of (mkRequest m (Some (join "/" segs)) q) = segs /\
  (forall a b,
      pathParts_of (mkRequest m (Some (a ++ "//" ++ b)) q) =
      pathParts_of (mkRequest m (Some (a ++ "/" ++ b)) q)).
Proof.
  intros H. unfold pathParts_of. cbn [pathname].
  change (filter nonempty (String_split "/" ?p)) with (segments p).
  pose proof (segments_join segs H) as Hj.
  split; [| split; [| split]].
  - change ("/" ++ join "/" segs)%string with (EmptyString ++ String "/" (join "/" segs))%string.
    rewrite segments_app. exact Hj.
  - change ("/" ++ join "/" segs ++ "/")%string
      with (EmptyString ++ String "/" (join "/" segs ++ String "/" EmptyString))%string.
    rewrite !segments_app, Hj. apply app_nil_r.
  - exact Hj.
  - intros a b.
    change (a ++ "//" ++ b)%string with (a ++ String "/" (EmptyString ++ String "/" b))%string.
    change (a ++ "/" ++ b)%string with (a ++ String "/" b)%string.
    rewrite !segments_app. reflexivity.
Qed.

Lemma path_segments_witness :
  pathParts_of (mkRequest "GET" (Some "/api/quotes/12") []) = ["api"; "quotes"; "12"] /\
  pathParts_of (mkRequest "GET" (Some "/api/quotes/12/") []) = ["api"; "quotes"; "12"] /\
  pathParts_of (mkRequest "GET" (Some "api/quotes/12") []) = ["api"; "quotes"; "12"] /\
  (forall a b,
      pathParts_of (mkRequest "GET" (Some (a ++ "//" ++ b)) []) =
      pathParts_of (mkRequest "GET" (Some (a ++ "/" ++ b)) [])).
Proof.
  apply (path_segments "GET" [] ["api"; "quotes"; "12"]). reflexivity.
Defined.

(** X5.  A GET request whose path is made of one or more slashes and of
    nothing else (the root [/], [//], ...) is answered by status 200 and
    the documentation object, whatever the query and the tables. *)
Theorem root_documentation (req : Request) (w : World) (path : string) :
  method req = "GET" ->
  pathname req = Some path ->
  nonempty path = true ->
  only_slashes path = true ->
  responds req w (json_reply 200 documentation).
Proof.
  intros Hm Hpath _ Hp. unfold responds.
  assert (Hparts : pathParts_of req = []).
  { unfold pathParts_of. rewrite Hpath.
    change (filter nonempty (String_split "/" path)) with (segments path).
    apply segments_only_slashes. exact Hp. }
  rewrite (handleRequest_GET req Hm), Hparts, Hpath. split; reflexivity.
Qed.

Lemma root_documentation_witness :
  responds (GET "//" [("search", QStr "x")]) sample (json_reply 200 documentation).
Proof.
  apply (root_documentation (GET "//" [("search", QStr "x")]) sample "//"); reflexivity.
Defined.

(** ** More on the substring filter *)

Lemma subsequence_refl {A : Type} (l : list A) : subsequence l l.
Proof. induction l; constructor; assumption. Qed.

Lemma subsequence_In {A : Type} (l' l : list A) :
  subsequence l' l -> forall x, In x l' -> In x l.
Proof.
  induction 1 as [| x l' l _ IH | x l' l _ IH]; intros y Hy; simpl in *.
  - exact Hy.
  - destruct Hy as [-> | Hy]; [left; reflexivity | right; apply IH; exact Hy].
  - right. apply IH. exact Hy.
Qed.

Lemma subsequence_length {A : Type} (l' l : list A) :
  subsequence l' l -> (List.length l' <= List.length l)%nat.
Proof. induction 1; simpl; lia. Qed.

(** What [filter] kept is a subsequence, and filtering it again keeps all. *)
Lemma Array_filter_kept {A : Type} (cb : A -> Result bool) (l l' : list A) :
  Array_filter cb l = Ok l' ->
  subsequence l' l /\ Array_filter cb l' = Ok l'.
Proof.
  revert l'. induction l as [| x l IH]; intros l' H; simpl in H.
  - injection H as <-. split; [constructor | reflexivity].
  - destruct (cb x) as [b |] eqn:Ex; [| discriminate H]. simpl in H.
    destruct (Array_filter cb l) as [rest |] eqn:El; [| discriminate H]. simpl in H.
    injection H as <-. destruct (IH rest eq_refl) as [Hsub Hidem].
    destruct b.
    + split; [constructor; exact Hsub |]. simpl. rewrite Ex, Hidem. reflexivity.
    + split; [constructor; exact Hsub | exact Hidem].
Qed.

(** X6.  Whenever [filterByQuery] returns, what it returns is a
    subsequence of the array it was given (no element added, none moved,
    so never longer), and filtering that result again with the same query
    returns it unchanged. *)
Theorem filterByQuery_subsequence (array : list value) (q : qvalue) (l : list value) :
  filterByQuery array q = Ok l ->
  subsequence l array /\
  (List.length l <= List.length array)%nat /\
  filterByQuery l q = Ok l.
Proof.
  unfold filterByQuery. destruct (negb (qtruthy q)).
  - intros H. injection H as <-.
    split; [apply subsequence_refl | split; [lia | reflexivity]].
  - intros H. apply Array_filter_kept in H as [Hsub Hidem].
    split; [exact Hsub | split; [apply subsequence_length; exact Hsub | exact Hidem]].
Qed.

Lemma filterByQuery_subsequence_witness :
  subsequence [george] [jerry; george] /\
  (List.length [george] <= List.length [jerry; george])%nat /\
  filterByQuery [george] (QStr "JASON") = Ok [george].
Proof.
  apply (filterByQuery_subsequence [jerry; george] (QStr "JASON") [george]). reflexivity.
Defined.

Lemma toLowerCase_nonempty (s : string) : nonempty (toLowerCase s) = nonempty s.
Proof. destruct s; reflexivity. Qed.

(** X7.  The search ignores the case of the query: two query strings that
    are equal once lowered give the same result on every array, the same
    list or the same exception. *)
Theorem filterByQuery_query_case (array : list value) (q1 q2 : string) :
  toLowerCase q1 = toLowerCase q2 ->
  filterByQuery array (QStr q1) = filterByQuery array (QStr q2).
Proof.
  intros H. unfold filterByQuery. cbn [qtruthy qtoLowerCase].
  rewrite <- (toLowerCase_nonempty q1), <- (toLowerCase_nonempty q2), H.
  reflexivity.
Qed.

Lemma filterByQuery_query_case_witness :
  filterByQuery (characters sample) (QStr "JeRRy") =
  filterByQuery (characters sample) (QStr "jerry").
Proof.
  apply (filterByQuery_query_case (characters sample) "JeRRy" "jerry"). reflexivity.
Defined.

Lemma Array_filter_throw {A : Type} (cb : A -> Result bool) (pre : list A) (x : A)
      (post : list A) (e : error) :
  (forall y, In y pre -> exists b, cb y = Ok b) ->
  cb x = Throw e ->
  Array_filter cb (pre ++ x :: post) = Throw e.
Proof.
  intros Hpre Hx. induction pre as [| y pre IH]; simpl.
  - rewrite Hx. reflexivity.
  - destruct (Hpre y (or_introl eq_refl)) as [b ->]. simpl.
    rewrite IH by (intros z Hz; apply Hpre; right; exact Hz). reflexivity.
Qed.

Lemma Array_some_throw {A : Type} (cb : A -> Result bool) (pre : list A) (x : A)
      (post : list A) (e : error) :
  (forall y, In y pre -> cb y = Ok false) ->
  cb x = Throw e ->
  Array_some cb (pre ++ x :: post) = Throw e.
Proof.
  intros Hpre Hx. induction pre as [| y pre IH]; simpl.
  - rewrite Hx. reflexivity.
  - rewrite (Hpre y (or_introl eq_refl)). simpl.
    apply IH. intros z Hz. apply Hpre. right. exact Hz.
Qed.

Lemma Array_some_hit {A : Type} (cb : A -> Result bool) (pre : list A) (x : A)
      (post : list A) :
  (forall y, In y pre -> cb y = Ok false) ->
  cb x = Ok true ->
  Array_some cb (pre ++ x :: post) = Ok true.
Proof.
  intros Hpre Hx. induction pre as [| y pre IH]; simpl.
  - rewrite Hx. reflexivity.
  - rewrite (Hpre y (or_introl eq_refl)). simpl.
    apply IH. intros z Hz. apply Hpre. right. exact Hz.
Qed.

(** The callback of [some], for a query string [q]. *)
Lemma field_callback (q : string) (v : value) :
  printable v = true ->
  (let? s := toString_method v in
   let? needle := qtoLowerCase (QStr q) in
   Ok (includes (toLowerCase s) needle))%result = Ok (field_matchesb q v).
Proof.
  intros Hp. destruct (toString_printable v Hp) as [s Hs].
  unfold field_matchesb. rewrite Hs. reflexivity.
Qed.

Lemma passes_callback (q : string) (before : list (string * value)) (y : value) :
  forallb (passes q) before = true ->
  In y (map snd before) ->
  (let? s := toString_method y in
   let? needle := qtoLowerCase (QStr q) in
   Ok (includes (toLowerCase s) needle))%result = Ok false.
Proof.
  intros Hb Hy. apply in_map_iff in Hy as (p & <- & Hp).
  pose proof (proj1 (forallb_forall _ _) Hb p Hp) as H.
  apply andb_prop in H as [H1 H2]. apply negb_true_iff in H2.
  rewrite (field_callback q (snd p) H1), H2. reflexivity.
Qed.

(** X8.  A [null] field stops the search with a TypeError, unless an
    earlier field of the same record already matches.  With a non-empty
    query string, if the records before are searchable and a record has a
    [null] field preceded only by readable fields that do not match, the
    whole filter throws; and a record in which a readable field matches is
    kept whatever the fields after it hold, [null] included. *)
Theorem filterByQuery_null_field (q : string) (pre post : list value)
        (before after : list (string * value)) (k : string) :
  nonempty q = true ->
  forallb is_record pre = true ->
  forallb (passes q) before = true ->
  filterByQuery (pre ++ VObj (before ++ (k, VNull) :: after) :: post) (QStr q) =
  Throw TypeError /\
  (forall v, printable v = true -> field_matchesb q v = true ->
             filterByQuery [VObj (before ++ (k, v) :: after)] (QStr q) =
             Ok [VObj (before ++ (k, v) :: after)]).
Proof.
  intros Hq Hpre Hb. unfold filterByQuery. cbn [qtruthy]. rewrite Hq. cbn [negb].
  split.
  - apply Array_filter_throw.
    + intros y Hy. exists (matchesb q y).
      apply (item_matches_record q y). exact (proj1 (forallb_forall _ _) Hpre y Hy).
    + cbn [Object_values rbind]. rewrite map_app. cbn [map snd].
      apply Array_some_throw; [| reflexivity].
      intros y Hy. apply (passes_callback q before y Hb Hy).
  - intros v Hp Hm. cbn [Array_filter Object_values rbind].
    rewrite map_app. cbn [map snd].
    rewrite (Array_some_hit _ (map snd before) v (map snd after)).
    + reflexivity.
    + intros y Hy. apply (passes_callback q before y Hb Hy).
    + rewrite (field_callback q v Hp), Hm. reflexivity.
Qed.

Lemma filterByQuery_null_field_witness :
  filterByQuery ([jerry] ++ VObj ([("id", VNum (NInt 9))] ++ ("name", VNull) :: []) :: [george])
                (QStr "newman") = Throw TypeError /\
  (forall v, printable v = true -> field_matchesb "newman" v = true ->
             filterByQuery [VObj ([("id", VNum (NInt 9))] ++ ("name", v) :: [])] (QStr "newman") =
             Ok [VObj ([("id", VNum (NInt 9))] ++ ("name", v) :: [])]).
Proof.
  apply (filterByQuery_null_field "newman" [jerry] [george] [("id", VNum (NInt 9))] [] "name");
    reflexivity.
Defined.

(** The conversion to a string fails in one way only. *)
Lemma ToString_TypeError :
  forall v e, ToString v = Throw e -> e = TypeError.
Proof.
  induction v as [| | b | n | s | items IH | props _] using value_nested_ind;
    intros e H; try discriminate H.
  - destruct b; discriminate H.
  - induction IH as [| x l Hx _ IHl]; [discriminate H |].
    rewrite ToString_cons in H.
    destruct (match x with
              | VUndefined | VNull => Ok EmptyString
              | _ => ToString x
              end) as [a | e'] eqn:Ex.
    + cbn [rbind] in H. destruct l as [| y l']; [discriminate H |].
      destruct (ToString (VArr (y :: l'))) as [b | e''] eqn:El; [discriminate H |].
      cbn [rbind] in H. injection H as <-. apply IHl. reflexivity.
    + cbn [rbind] in H. injection H as <-.
      destruct x; try discriminate Ex; apply (Hx _ Ex).
  - simpl in H. destruct (has_own props "toString"); [| discriminate H].
    injection H as <-. reflexivity.
Qed.

(** With an array for a query, reading any one value throws. *)
Lemma field_callback_array (ss : list string) (v : value) :
  (let? s := toString_method v in
   let? needle := qtoLowerCase (QArr ss) in
   Ok (includes (toLowerCase s) needle))%result = Throw TypeError.
Proof.
  destruct (toString_method v) as [s | e] eqn:E; [reflexivity |].
  cbn [rbind]. f_equal.
  destruct v; try discriminate E; try (injection E as <-; reflexivity);
    apply (ToString_TypeError _ _ E).
Qed.

Lemma item_matches_array (ss : list string) (item : value) :
  item_matches (QArr ss) item = if valueless item then Ok false else Throw TypeError.
Proof.
  unfold item_matches, valueless.
  destruct (Object_values item) as [[| v vs] | e] eqn:E; cbn [rbind].
  - reflexivity.
  - cbn [Array_some]. rewrite field_callback_array. reflexivity.
  - destruct item; try discriminate E; injection E as <-; reflexivity.
Qed.

Lemma Array_filter_array_query (ss : list string) (array : list value) :
  Array_filter (item_matches (QArr ss)) array =
  if forallb valueless array then Ok [] else Throw TypeError.
Proof.
  induction array as [| x array IH]; [reflexivity |].
  cbn [Array_filter forallb]. rewrite item_matches_array.
  destruct (valueless x); [| reflexivity].
  cbn [rbind andb]. rewrite IH. destruct (forallb valueless array); reflexivity.
Qed.

(** X9.  A [search] parameter given more than once reaches the filter as
    an array, which has no [toLowerCase].  The filter then throws a
    TypeError on every array that holds an item with at least one property
    value (or a [null] item), whatever the strings given; an array whose
    items all have no value to search, such as the empty array or [[{}]],
    is filtered to the empty array. *)
Theorem filterByQuery_repeated_parameter (ss : list string) (array : list value) :
  filterByQuery array (QArr ss) =
  if forallb valueless array then Ok [] else Throw TypeError.
Proof. apply Array_filter_array_query. Qed.

(** ** The collection routes *)

Lemma filterByQuery_by_search (array : list value) (sq : qvalue) :
  single sq = true ->
  (forall x, In x array -> is_record x = true) ->
  exists l, filterByQuery array sq = Ok l /\ by_search sq array l.
Proof.
  intros Hs Hr. destruct sq as [| q | ss]; [| | discriminate Hs].
  - exists array. split; reflexivity.
  - unfold by_search. destruct (nonempty q) eqn:Hq.
    + exists (filter (matchesb q) array). split.
      * apply filterByQuery_records; assumption.
      * apply filter_restricts. intros x _. apply matchesb_spec.
    + exists array. split; [| reflexivity].
      apply filterByQuery_falsy. exact Hq.
Qed.

Lemma by_search_In (sq : qvalue) (l l' : list value) :
  by_search sq l l' -> forall x, In x l' -> In x l.
Proof.
  unfold by_search. intros H x Hx.
  destruct sq as [| q | ss]; try (subst l'; exact Hx).
  destruct (nonempty q); [| subst l'; exact Hx].
  apply (restricts_In _ _ _ H). exact Hx.
Qed.

(** X10.  On searchable characters, a GET request to [/api/characters]
    with a [search] parameter absent or given once is answered by 200 and
    [{total, characters}]: the whole table when the parameter is absent or
    empty, else exactly the characters with a field whose string form
    contains it (case ignored), in table order; [total] is the number of
    characters returned. *)
Theorem characters_collection (req : Request) (w : World) :
  method req = "GET" ->
  pathParts_of req = ["api"; "characters"] ->
  forallb is_record (characters w) = true ->
  single (query_get (query req) "search") = true ->
  exists l,
    by_search (query_get (query req) "search") (characters w) l /\
    responds req w
      (json_reply 200 (VObj [("total", VNum (NInt (Z.of_nat (List.length l))));
                             ("characters", VArr l)])).
Proof.
  intros Hget Hpath Hrec Hs.
  destruct (filterByQuery_by_search (characters w) _ Hs (proj1 (forallb_forall _ _) Hrec))
    as [l [Hl Hby]].
  exists l. split; [exact Hby |].
  apply responds_sendJSON_object. rewrite (handleRequest_GET req Hget), Hpath.
  cbn [String.eqb Ascii.eqb Bool.eqb]. unfold handleCharacters.
  rewrite bind_gets, Hl. reflexivity.
Qed.

Lemma characters_collection_witness :
  exists l,
    by_search (QStr "alexander") (characters sample) l /\
    responds (GET "/api/characters" [("search", QStr "alexander")]) sample
      (json_reply 200 (VObj [("total", VNum (NInt (Z.of_nat (List.length l))));
                             ("characters", VArr l)])).
Proof.
  apply (characters_collection (GET "/api/characters" [("search", QStr "alexander")]) sample);
    reflexivity.
Defined.

(** The callback of the character filter of the quotes:
    [q => q.character.toLowerCase().includes(character.toLowerCase())]. *)
Lemma character_callback (c : string) (qt : value) :
  wf_quote qt = true ->
  (let? who := get_prop qt "character" in
   let? hay := toLowerCase_method who in
   let? needle := qtoLowerCase (QStr c) in
   Ok (includes hay needle))%result = Ok (mentionsb c qt).
Proof.
  intros Hq. destruct qt as [| | | | | | props]; try discriminate Hq.
  unfold mentionsb. simpl in *.
  destruct (lookup props "character") as [[| | | | who | |] |]; try discriminate Hq.
  reflexivity.
Qed.

Lemma quotes_by_character (qs : list value) (cq : qvalue) :
  single cq = true ->
  forallb wf_quote qs = true ->
  exists l,
    (if qtruthy cq
     then Array_filter (fun qt =>
            let? who := get_prop qt "character" in
            let? hay := toLowerCase_method who in
            let? needle := qtoLowerCase cq in
            Ok (includes hay needle))%result qs
     else Ok qs) = Ok l /\
    by_character cq qs l /\
    l = (if qtruthy cq then filter (mentionsb (qToString cq)) qs else qs).
Proof.
  intros Hs Hwf. destruct cq as [| c | ss]; [| | discriminate Hs].
  - exists qs. repeat split.
  - cbn [qtruthy by_character qToString]. destruct (nonempty c).
    + exists (filter (mentionsb c) qs). split; [| split; [| reflexivity]].
      * apply Array_filter_pure. intros x Hx. apply character_callback.
        exact (proj1 (forallb_forall _ _) Hwf x Hx).
      * apply filter_restricts. intros x _. apply mentionsb_spec.
    + exists qs. repeat split.
Qed.

(** X11.  On searchable quotes that each have a string [character], a GET
    request to [/api/quotes] whose [character] and [search] parameters are
    each absent or given once is answered by 200 and [{total, quotes}]:
    the character filter is applied first (exactly the quotes whose
    [character] contains the parameter, case ignored; all of them when it
    is absent or empty), the search filter on its result, both in table
    order; [total] is the number of quotes returned. *)
Theorem quotes_collection (req : Request) (w : World) :
  method req = "GET" ->
  pathParts_of req = ["api"; "quotes"] ->
  forallb wf_quote (quotes w) = true ->
  forallb is_record (quotes w) = true ->
  single (query_get (query req) "character") = true ->
  single (query_get (query req) "search") = true ->
  exists l1 l2,
    by_character (query_get (query req) "character") (quotes w) l1 /\
    by_search (query_get (query req) "search") l1 l2 /\
    responds req w
      (json_reply 200 (VObj [("total", VNum (NInt (Z.of_nat (List.length l2))));
                             ("quotes", VArr l2)])).
Proof.
  intros Hget Hpath Hwf Hrec Hc Hs.
  destruct (quotes_by_character (quotes w) _ Hc Hwf) as [l1 (Hl1 & Hby1 & Heq)].
  assert (Hr1 : forall x, In x l1 -> is_record x = true).
  { intros x Hx. apply (proj1 (forallb_forall _ _) Hrec).
    rewrite Heq in Hx. destruct (qtruthy (query_get (query req) "character"));
      [apply filter_In in Hx; apply Hx | exact Hx]. }
  destruct (filterByQuery_by_search l1 _ Hs Hr1) as [l2 [Hl2 Hby2]].
  exists l1, l2. split; [exact Hby1 |]. split; [exact Hby2 |].
  apply responds_sendJSON_object. rewrite (handleRequest_GET req Hget), Hpath.
  cbn [String.eqb Ascii.eqb Bool.eqb]. unfold handleQuotes. rewrite bind_gets.
  destruct (qtruthy (query_get (query req) "character")).
  - unfold bind at 1. unfold lift at 1. rewrite Hl1, Hl2. reflexivity.
  - unfold bind at 1. unfold ret. injection Hl1 as <-. rewrite Hl2. reflexivity.
Qed.

Lemma quotes_collection_witness :
  exists l1 l2,
    by_character (QStr "jerry") (quotes sample) l1 /\
    by_search (QStr "newman") l1 l2 /\
    responds (GET "/api/quotes" [("character", QStr "jerry"); ("search", QStr "newman")]) sample
      (json_reply 200 (VObj [("total", VNum (NInt (Z.of_nat (List.length l2))));
                             ("quotes", VArr l2)])).
Proof.
  apply (quotes_collection
           (GET "/api/quotes" [("character", QStr "jerry"); ("search", QStr "newman")]) sample);
    reflexivity.
Defined.

Lemma includes_empty (hay : string) : includes hay EmptyString = true.
Proof. apply includes_spec. exists EmptyString, hay. reflexivity. Qed.

Lemma mentionsb_empty (qs : list value) :
  forallb wf_quote qs = true -> filter (mentionsb EmptyString) qs = qs.
Proof.
  intros H. induction qs as [| x qs IH]; [reflexivity |].
  cbn [forallb] in H. apply andb_prop in H as [Hx Hqs]. cbn [filter].
  rewrite (IH Hqs).
  destruct x as [| | | | | | props]; try discriminate Hx. simpl in *.
  destruct (lookup props "character") as [[| | | | who | |] |]; try discriminate Hx.
  change (toLowerCase EmptyString) with EmptyString. rewrite includes_empty. reflexivity.
Qed.

(** X12.  The two ways to the quotes of a character agree: on a dataset
    that follows the data model, the [quotes] array in the answer to
    [/api/characters/<id>] is the list that [/api/quotes?character=<name>]
    returns for that character's [name], same quotes in the same order
    (for an empty name, all the quotes). *)
Theorem character_quotes_agree (req1 req2 : Request) (w : World) (seg : string) (n : Z)
        (pre : list value) (props : list (string * value)) (post : list value)
        (name : string) :
  wf_dataset w ->
  method req1 = "GET" ->
  pathParts_of req1 = ["api"; "characters"; seg] ->
  seg <> "random" ->
  parseInt seg = NInt n ->
  characters w = (pre ++ VObj props :: post)%list ->
  has_id n (VObj props) ->
  (forall x, In x pre -> ~ has_id n x) ->
  lookup props "name" = Some (VStr name) ->
  method req2 = "GET" ->
  pathParts_of req2 = ["api"; "quotes"] ->
  query_get (query req2) "character" = QStr name ->
  qtruthy (query_get (query req2) "search") = false ->
  exists qs,
    responds req1 w (json_reply 200 (VObj (set_prop props "quotes" (VArr qs)))) /\
    responds req2 w
      (json_reply 200 (VObj [("total", VNum (NInt (Z.of_nat (List.length qs))));
                             ("quotes", VArr qs)])).
Proof.
  intros Hwf Hg1 Hp1 Hseg Hn Hc Hrec Hpre Hname Hg2 Hp2 Hcq Hsq.
  exists (filter (mentionsb name) (quotes w)). split.
  - apply responds_sendJSON_object.
    rewrite (by_id_route req1 Characters seg Hg1 Hp1), Hn
      by (apply String.eqb_neq; exact Hseg).
    apply (by_id_hit_character _ w pre props post name);
      [apply Hwf | exact Hc | | apply id_is_hit; exact Hrec | exact Hname].
    intros x Hx. apply id_is_miss; [| apply Hpre; exact Hx].
    apply (wf_table w Characters); [exact Hwf |].
    simpl. rewrite Hc. apply in_or_app. left. exact Hx.
  - apply responds_sendJSON_object. rewrite (handleRequest_GET req2 Hg2), Hp2.
    cbn [String.eqb Ascii.eqb Bool.eqb]. unfold handleQuotes. rewrite bind_gets.
    destruct (quotes_by_character (quotes w) (QStr name) eq_refl (proj2 (proj2 Hwf)))
      as [l (Hl & _ & Heq)].
    rewrite Hcq. cbn [qtruthy qToString] in *.
    destruct (nonempty name) eqn:En.
    + subst l. unfold bind at 1. unfold lift at 1. rewrite Hl.
      rewrite (filterByQuery_falsy _ _ Hsq). reflexivity.
    + destruct name; [| discriminate En].
      rewrite (mentionsb_empty (quotes w) (proj2 (proj2 Hwf))).
      unfold bind at 1. unfold ret.
      rewrite (filterByQuery_falsy _ _ Hsq). reflexivity.
Qed.

Lemma character_quotes_agree_witness :
  exists qs,
    responds (GET "/api/characters/1" []) sample
      (json_reply 200
         (VObj (set_prop [("id", VNum (NInt 1)); ("name", VStr "Jerry");
                          ("actor", VStr "Jerry Seinfeld")] "quotes" (VArr qs)))) /\
    responds (GET "/api/quotes" [("character", QStr "Jerry")]) sample
      (json_reply 200 (VObj [("total", VNum (NInt (Z.of_nat (List.length qs))));
                             ("quotes", VArr qs)])).
Proof.
  assert (Hseg : "1" <> "random") by discriminate.
  apply (character_quotes_agree (GET "/api/characters/1" [])
           (GET "/api/quotes" [("character", QStr "Jerry")]) sample "1" 1
           [] _ [george] "Jerry" wf_sample eq_refl eq_refl Hseg); try reflexivity.
  intros x [].
Defined.

(** ** The random routes *)

Lemma random_route (req : Request) (r : resource) :
  method req = "GET" ->
  pathParts_of req = ["api"; root_of r; "random"] ->
  handleRequest req =
  bind (gets (table_of r))
       (fun array => bind (getRandomItem array) (fun item => sendJSON item 200)).
Proof.
  intros Hm Hp. rewrite (handleRequest_GET req Hm), Hp. destruct r; reflexivity.
Qed.

Lemma random_route_run (req : Request) (r : resource) (w : World) :
  method req = "GET" ->
  pathParts_of req = ["api"; root_of r; "random"] ->
  handleRequest req w =
  sendJSON
    (index (table_of r w)
           (Qfloor (rng w (drawn w) * inject_Z (Z.of_nat (List.length (table_of r w))))))
    200
    (mkWorld (characters w) (episodes w) (quotes w) (res w) (rng w) (S (drawn w))).
Proof. intros Hm Hp. rewrite (random_route req r Hm Hp). reflexivity. Qed.

Lemma random_index_bounds (x : Q) (len : nat) :
  (0 <= x)%Q -> (x < 1)%Q -> (0 < len)%nat ->
  0 <= Qfloor (x * inject_Z (Z.of_nat len)) < Z.of_nat len.
Proof.
  intros H0 H1 Hlen.
  assert (HL : (0 < inject_Z (Z.of_nat len))%Q).
  { change 0%Q with (inject_Z 0). rewrite <- Zlt_Qlt. lia. }
  split.
  - change 0 with (Qfloor 0). apply Qfloor_resp_le.
    apply Qmult_le_0_compat; [exact H0 | apply Qlt_le_weak; exact HL].
  - rewrite Zlt_Qlt.
    apply Qle_lt_trans with (y := (x * inject_Z (Z.of_nat len))%Q); [apply Qfloor_le |].
    apply Qlt_le_trans with (y := (1 * inject_Z (Z.of_nat len))%Q).
    + apply Qmult_lt_compat_r; assumption.
    + rewrite Qmult_1_l. apply Qle_refl.
Qed.

Lemma index_In (array : list value) (i : Z) :
  0 <= i < Z.of_nat (List.length array) -> In (index array i) array.
Proof.
  intros [H0 H1]. unfold index.
  destruct (Z.ltb_spec i 0); [lia |].
  apply nth_In. lia.
Qed.

Lemma index_nil (i : Z) : index [] i = VUndefined.
Proof. unfold index. destruct (i <? 0); [reflexivity |]. destruct (Z.to_nat i); reflexivity. Qed.

(** X13.  On a dataset that follows the data model, with a table that is
    not empty and a random number in the interval from 0 (included) to 1
    (excluded), a GET request to [/api/<resource>/random] is answered by
    200 and a record of that table: the index computed from the random
    number never leaves the table. *)
Theorem random_pick_member (r : resource) (req : Request) (w : World) :
  wf_dataset w ->
  method req = "GET" ->
  pathParts_of req = ["api"; root_of r; "random"] ->
  table_of r w <> [] ->
  (0 <= rng w (drawn w))%Q ->
  (rng w (drawn w) < 1)%Q ->
  exists item, In item (table_of r w) /\ responds req w (json_reply 200 item).
Proof.
  intros Hwf Hget Hpath Hne H0 H1.
  set (i := Qfloor (rng w (drawn w) * inject_Z (Z.of_nat (List.length (table_of r w))))).
  assert (Hin : In (index (table_of r w) i) (table_of r w)).
  { apply index_In. apply random_index_bounds; try assumption.
    destruct (table_of r w); [contradiction | simpl; lia]. }
  exists (index (table_of r w) i). split; [exact Hin |].
  destruct (is_object_inv _ (wf_table w r _ Hwf Hin)) as [props Hprops].
  unfold responds. rewrite (random_route_run req r w Hget Hpath).
  fold i. rewrite Hprops, sendJSON_object. split; reflexivity.
Qed.

Lemma random_pick_member_witness :
  exists item,
    In item (table_of Quotes sample) /\
    responds (GET "/api/quotes/random" []) sample (json_reply 200 item).
Proof.
  apply (random_pick_member Quotes (GET "/api/quotes/random" []) sample wf_sample);
    try reflexivity; discriminate.
Defined.

(** X14.  On an empty table the random pick reads past the end of the
    array: a GET request to [/api/<resource>/random] is then answered by
    status 200 with the JSON headers and no body at all, neither a record
    nor an error envelope, whatever the random number. *)
Theorem random_pick_empty (r : resource) (req : Request) (w : World) :
  method req = "GET" ->
  pathParts_of req = ["api"; root_of r; "random"] ->
  table_of r w = [] ->
  fst (handleRequest req w) = Ok tt /\
  res (snd (handleRequest req w)) = mkServerResponse (Some (200, json_headers)) true None.
Proof.
  intros Hget Hpath Hnil. rewrite (random_route_run req r w Hget Hpath).
  rewrite Hnil, index_nil. split; reflexivity.
Qed.

Lemma random_pick_empty_witness :
  fst (handleRequest (GET "/api/characters/random" []) specials) = Ok tt /\
  res (snd (handleRequest (GET "/api/characters/random" []) specials)) =
  mkServerResponse (Some (200, json_headers)) true None.
Proof.
  apply (random_pick_empty Characters (GET "/api/characters/random" []) specials);
    reflexivity.
Defined.

(** ** Statistics over episodes without a season *)

Lemma number_max_NaN (ns : list number) :
  fold_left number_max ns NNaN = NNaN.
Proof. induction ns as [| n ns IH]; simpl; [reflexivity | exact IH]. Qed.

Lemma fold_number_max_NaN (ns : list number) (acc : number) :
  In NNaN ns -> fold_left number_max ns acc = NNaN.
Proof.
  revert acc. induction ns as [| n ns IH]; intros acc H; [contradiction |].
  simpl. destruct H as [-> | H].
  - replace (number_max acc NNaN) with NNaN by (destruct acc; reflexivity).
    apply number_max_NaN.
  - apply IH. exact H.
Qed.

Lemma season_callback (ep : value) :
  season_number_or_missing ep = true ->
  get_prop ep "season" = Ok (season_value ep) /\
  ToNumber (season_value ep) = Ok (season_number ep).
Proof.
  unfold season_number_or_missing, season_number, season_value.
  destruct (get_prop ep "season") as [[| | | n | | |] |]; try discriminate;
    intros _; split; reflexivity.
Qed.

(** X15.  When every episode's [season] is a number or is missing, and at
    least one episode has none, [/api/stats] still answers 200 with the
    three totals, but its [seasons] is NaN (which JSON renders as null):
    one record without a season hides the maximum of all the others. *)
Theorem stats_missing_season (req : Request) (w : World) (rest : list string) :
  method req = "GET" ->
  pathParts_of req = "api" :: "stats" :: rest ->
  forallb season_number_or_missing (episodes w) = true ->
  existsb season_missing (episodes w) = true ->
  responds req w
    (json_reply 200
       (VObj [("totalCharacters", VNum (NInt (Z.of_nat (List.length (characters w)))));
              ("totalEpisodes", VNum (NInt (Z.of_nat (List.length (episodes w)))));
              ("totalQuotes", VNum (NInt (Z.of_nat (List.length (quotes w)))));
              ("seasons", VNum NNaN);
              ("apiVersion", VStr "1.0.0")])).
Proof.
  intros Hget Hpath Hall Hsome.
  apply responds_sendJSON_object. rewrite (stats_route req rest Hget Hpath).
  unfold handleStats. rewrite !bind_gets.
  rewrite (Array_map_pure _ season_value)
    by (intros x Hx; apply season_callback; exact (proj1 (forallb_forall _ _) Hall x Hx)).
  cbn [rbind]. unfold Math_max.
  rewrite (Array_map_pure ToNumber (fun v => match v with VNum n => n | _ => NNaN end)).
  - cbn [rbind]. rewrite fold_number_max_NaN; [reflexivity |].
    apply existsb_exists in Hsome as (ep & Hin & Hmiss).
    apply in_map_iff. exists (season_value ep). split; [| apply in_map; exact Hin].
    unfold season_missing, season_value in *.
    destruct (get_prop ep "season") as [[| | | | | |] |]; try discriminate Hmiss.
    reflexivity.
  - intros v Hv. apply in_map_iff in Hv as (ep & <- & Hin).
    pose proof (proj1 (forallb_forall _ _) Hall ep Hin) as Hep.
    unfold season_number_or_missing, season_value in *.
    destruct (get_prop ep "season") as [[| | | n | | |] |]; try discriminate Hep; reflexivity.
Qed.

Lemma stats_missing_season_witness :
  responds (GET "/api/stats" [])
    (mkWorld [] [pilot; VObj [("id", VNum (NInt 4)); ("title", VStr "The Robbery")]] []
             fresh (fun _ => 0%Q) 0)
    (json_reply 200
       (VObj [("totalCharacters", VNum (NInt 0));
              ("totalEpisodes", VNum (NInt 2));
              ("totalQuotes", VNum (NInt 0));
              ("seasons", VNum NNaN);
              ("apiVersion", VStr "1.0.0")])).
Proof.
  apply (stats_missing_season (GET "/api/stats" [])
           (mkWorld [] [pilot; VObj [("id", VNum (NInt 4)); ("title", VStr "The Robbery")]] []
                    fresh (fun _ => 0%Q) 0) []); reflexivity.
Defined.

(** ** Routes that do not read the query *)

(** X16.  The by-id and random routes of the three resources and the
    statistics route never read the query string: two requests with the
    same method and the same path to one of these routes are handled alike,
    same outcome and same final state, whatever their queries. *)
Theorem query_not_read (req1 req2 : Request) (w : World) :
  method req1 = method req2 ->
  pathname req1 = pathname req2 ->
  (exists r seg, pathParts_of req1 = ["api"; root_of r; seg]) \/
  (exists rest, pathParts_of req1 = "api" :: "stats" :: rest) ->
  handleRequest req1 w = handleRequest req2 w.
Proof.
  intros Hm Hp Hshape.
  assert (Hparts : pathParts_of req2 = pathParts_of req1)
    by (unfold pathParts_of; rewrite Hp; reflexivity).
  unfold handleRequest. rewrite Hparts, Hm, Hp.
  destruct (pathname req2); [| reflexivity].
  destruct (String.eqb (method req2) "OPTIONS"); [reflexivity |].
  destruct (String.eqb (method req2) "GET"); [| reflexivity].
  cbn [negb].
  destruct Hshape as [(r & seg & ->) | (rest & ->)].
  - destruct r; reflexivity.
  - reflexivity.
Qed.

Lemma query_not_read_witness :
  handleRequest (GET "/api/episodes/2" [("season", QStr "9"); ("search", QArr ["a"; "b"])])
                sample =
  handleRequest (GET "/api/episodes/2" []) sample.
Proof.
  apply (query_not_read
           (GET "/api/episodes/2" [("season", QStr "9"); ("search", QArr ["a"; "b"])])
           (GET "/api/episodes/2" []) sample); try reflexivity.
  left. exists Episodes, "2". reflexivity.
Defined.

(** ** An id written in decimal *)

Lemma leading_digits_uint (d : Decimal.uint) :
  leading_digits 10 (NilEmpty.string_of_uint d) = uint_values d.
Proof. induction d; simpl; try rewrite IHd; reflexivity. Qed.

Lemma of_uint_acc_values (d : Decimal.uint) (acc : positive) :
  Z.pos (Pos.of_uint_acc d acc) =
  fold_left (fun a x => a * 10 + x) (uint_values d) (Z.pos acc).
Proof.
  revert acc. induction d; intros acc; cbn [Pos.of_uint_acc uint_values fold_left];
    [reflexivity | ..]; rewrite IHd; apply f_equal; lia.
Qed.

Lemma of_uint_values (d : Decimal.uint) :
  Z.of_uint d = mathInt 10 (uint_values d).
Proof.
  unfold Z.of_uint, mathInt. induction d; simpl; [reflexivity | exact IHd | ..];
    apply of_uint_acc_values.
Qed.

(** A decimal numeral starts with a digit: nothing to trim, no sign, no
    hexadecimal prefix, and it is not the word random. *)
Lemma uint_string_plain (d : Decimal.uint) :
  d <> Decimal.Nil ->
  trimStart (NilEmpty.string_of_uint d) = NilEmpty.string_of_uint d /\
  strip_sign (NilEmpty.string_of_uint d) = (1, NilEmpty.string_of_uint d) /\
  hex_prefixed (NilEmpty.string_of_uint d) = false /\
  String.eqb (NilEmpty.string_of_uint d) "random" = false /\
  String.eqb (String "-" (NilEmpty.string_of_uint d)) "random" = false.
Proof.
  intros Hd. destruct d as [| d | d | d | d | d | d | d | d | d | d];
    try contradiction; repeat split; try reflexivity.
  destruct d; reflexivity.
Qed.

Lemma parseInt_signed (s : string) (sign : Z) (body : string) :
  trimStart s = s -> strip_sign s = (sign, body) -> hex_prefixed body = false ->
  parseInt s = match leading_digits 10 body with
               | [] => NNaN
               | ds => NInt (sign * mathInt 10 ds)
               end.
Proof. intros Ht Hs Hx. unfold parseInt. rewrite Ht, Hs, Hx. reflexivity. Qed.

Lemma uint_values_nonnil (d : Decimal.uint) :
  d <> Decimal.Nil -> uint_values d <> [].
Proof. destruct d; [contradiction | ..]; discriminate. Qed.

Lemma parseInt_uint (sign : Z) (s : string) (d : Decimal.uint) :
  d <> Decimal.Nil ->
  trimStart s = s ->
  strip_sign s = (sign, NilEmpty.string_of_uint d) ->
  parseInt s = NInt (sign * Z.of_uint d).
Proof.
  intros Hd Ht Hs.
  destruct (uint_string_plain d Hd) as (_ & _ & Hx & _).
  rewrite (parseInt_signed s sign _ Ht Hs Hx), leading_digits_uint, of_uint_values.
  pose proof (uint_values_nonnil d Hd) as Hne.
  destruct (uint_values d); [contradiction | reflexivity].
Qed.

Lemma of_to_uint (p : positive) : Z.of_uint (Pos.to_uint p) = Z.pos p.
Proof. unfold Z.of_uint. rewrite DecimalPos.Unsigned.of_to. reflexivity. Qed.

Lemma NilZero_string_of_uint (d : Decimal.uint) :
  d <> Decimal.Nil -> NilZero.string_of_uint d = NilEmpty.string_of_uint d.
Proof. destruct d; [contradiction | ..]; reflexivity. Qed.

(** [parseInt] reads back the decimal form of every integer. *)
Lemma parseInt_Z_toString (n : Z) : parseInt (Z_toString n) = NInt n.
Proof.
  destruct n as [| p | p]; [reflexivity | |]; unfold Z_toString; cbn [Z.to_int NilZero.string_of_int];
    pose proof (DecimalPos.Unsigned.to_uint_nonnil p) as Hd;
    rewrite (NilZero_string_of_uint _ Hd);
    destruct (uint_string_plain _ Hd) as (Ht & Hs & _).
  - rewrite (parseInt_uint 1 _ (Pos.to_uint p) Hd Ht Hs), of_to_uint. reflexivity.
  - rewrite (parseInt_uint (-1) (String "-" (NilEmpty.string_of_uint (Pos.to_uint p)))
                           (Pos.to_uint p) Hd eq_refl eq_refl), of_to_uint.
    reflexivity.
Qed.

Lemma Z_toString_not_random (n : Z) : Z_toString n <> "random".
Proof.
  apply String.eqb_neq.
  destruct n as [| p | p]; [reflexivity | |]; unfold Z_toString; cbn [Z.to_int NilZero.string_of_int];
    pose proof (DecimalPos.Unsigned.to_uint_nonnil p) as Hd;
    rewrite (NilZero_string_of_uint _ Hd);
    destruct (uint_string_plain _ Hd) as (_ & _ & _ & H1 & H2); assumption.
Qed.

(** X17.  Every record can be asked for by its id: for any integer [n],
    positive, zero or negative, [parseInt] reads the decimal form of [n]
    back as [n], so on a dataset that follows the data model a GET request
    to [/api/<resource>/<n in decimal>] returns the first record of the
    table whose [id] is [n] (a character with its quotes). *)
Theorem decimal_id_reaches_record (r : resource) (req : Request) (w : World) (n : Z)
        (pre : list value) (rec : value) (post : list value) :
  wf_dataset w ->
  method req = "GET" ->
  pathParts_of req = ["api"; root_of r; Z_toString n] ->
  table_of r w = (pre ++ rec :: post)%list ->
  has_id n rec ->
  (forall x, In x pre -> ~ has_id n x) ->
  parseInt (Z_toString n) = NInt n /\
  exists body, responds req w (json_reply 200 body) /\ payload_of r rec body.
Proof.
  intros Hwf Hget Hpath Ht Hrec Hpre.
  split; [apply parseInt_Z_toString |].
  apply (by_id_found r req w (Z_toString n) Hwf Hget Hpath (Z_toString_not_random n)
                     n pre rec post (parseInt_Z_toString n) Ht Hrec Hpre).
Qed.

Lemma decimal_id_reaches_record_witness :
  parseInt (Z_toString 3) = NInt 3 /\
  exists body,
    responds (GET "/api/episodes/3" []) sample (json_reply 200 body) /\
    payload_of Episodes stake_out body.
Proof.
  apply (decimal_id_reaches_record Episodes (GET "/api/episodes/3" []) sample 3
           [pilot; ex_girlfriend] stake_out [] wf_sample); try reflexivity.
  intros x [<- | [<- | []]] H; discriminate H.
Defined.

(** ** The season parameter at its edges *)

Lemma season_is_NaN (ep : value) :
  is_object ep = true -> season_is NNaN ep = Ok false.
Proof.
  intros Ho. apply is_object_inv in Ho as [props ->].
  unfold season_is. simpl.
  destruct (lookup props "season") as [[| | | [z | | |] | | |] |]; reflexivity.
Qed.

Lemma filter_none {A : Type} (l : list A) : filter (fun _ => false) l = [].
Proof. induction l; simpl; auto. Qed.

(** X18.  The two edges of the [season] parameter of [/api/episodes], on a
    dataset that follows the data model.  A parameter that is not empty
    but starts with no number ([season=abc]) selects nothing: the answer
    is 200 with [{total: 0, episodes: []}], whatever the [search]
    parameter.  An empty parameter ([season=]) is not a filter at all:
    without a search, the answer holds every episode. *)
Theorem episodes_season_edges (req : Request) (w : World) :
  wf_dataset w ->
  method req = "GET" ->
  pathParts_of req = ["api"; "episodes"] ->
  (qtruthy (query_get (query req) "season") = true ->
   parseInt (qToString (query_get (query req) "season")) = NNaN ->
   responds req w
     (json_reply 200 (VObj [("total", VNum (NInt 0)); ("episodes", VArr [])]))) /\
  (query_get (query req) "season" = QStr "" ->
   qtruthy (query_get (query req) "search") = false ->
   responds req w
     (json_reply 200 (VObj [("total", VNum (NInt (Z.of_nat (List.length (episodes w)))));
                            ("episodes", VArr (episodes w))]))).
Proof.
  intros Hwf Hget Hpath. split.
  - intros Ht Hn. apply responds_sendJSON_object.
    rewrite (episodes_collection req Hget Hpath).
    unfold handleEpisodes. rewrite bind_gets, Ht, Hn.
    change (fun ep : value =>
              (let? s := get_prop ep "season" in Ok (strict_eq_number s NNaN))%result)
      with (season_is NNaN).
    rewrite (Array_filter_pure (season_is NNaN) (fun _ => false))
      by (intros x Hx; apply season_is_NaN; apply (wf_table w Episodes); assumption).
    rewrite filter_none, bind_lift_Ok.
    replace (filterByQuery [] (query_get (query req) "search")) with (@Ok (list value) [])
      by (unfold filterByQuery; destruct (negb (qtruthy (query_get (query req) "search")));
          reflexivity).
    reflexivity.
  - intros Hs Hq. apply responds_sendJSON_object.
    rewrite (episodes_collection req Hget Hpath).
    unfold handleEpisodes. rewrite bind_gets, Hs. cbn [qtruthy nonempty].
    unfold bind at 1. unfold ret. rewrite (filterByQuery_falsy _ _ Hq). reflexivity.
Qed.

Lemma episodes_season_edges_witness :
  responds (GET "/api/episodes" [("season", QStr "abc"); ("search", QArr ["a"; "b"])]) sample
    (json_reply 200 (VObj [("total", VNum (NInt 0)); ("episodes", VArr [])])).
Proof.
  apply (proj1 (episodes_season_edges
                  (GET "/api/episodes" [("season", QStr "abc"); ("search", QArr ["a"; "b"])])
                  sample wf_sample eq_refl eq_refl)); reflexivity.
Defined.

Lemma digits_then_comma_not_hex (s rest : string) :
  all_digits 10 s = true -> hex_prefixed (s ++ String "," rest) = false.
Proof.
  intros Hd. destruct s as [| a [| b s']]; [discriminate Hd | |].
  - each_code_unit a; reflexivity.
  - apply all_digits_cons in Hd as [_ [Hs | Hs]]; [discriminate Hs |].
    apply all_digits_cons in Hs as [Hb _].
    each_code_unit b; try discriminate Hb; each_code_unit a; reflexivity.
Qed.

(** X19.  A [season] parameter given several times counts as its first
    value: when the first value is made of decimal digits, the request
    [/api/episodes?season=s&season=t...] is handled exactly as
    [/api/episodes?season=s] with the same [search], same outcome and same
    answer. *)
Theorem repeated_season_first (req1 req2 : Request) (w : World)
        (s t : string) (more : list string) :
  all_digits 10 s = true ->
  method req1 = "GET" ->
  method req2 = "GET" ->
  pathParts_of req1 = ["api"; "episodes"] ->
  pathParts_of req2 = ["api"; "episodes"] ->
  query_get (query req1) "season" = QArr (s :: t :: more) ->
  query_get (query req2) "season" = QStr s ->
  query_get (query req1) "search" = query_get (query req2) "search" ->
  handleRequest req1 w = handleRequest req2 w.
Proof.
  intros Hd Hm1 Hm2 Hp1 Hp2 Hq1 Hq2 Hs.
  rewrite (episodes_collection req1 Hm1 Hp1), (episodes_collection req2 Hm2 Hp2).
  unfold handleEpisodes. rewrite Hq1, Hq2, Hs. cbn [qtruthy qToString].
  change (join "," (s :: t :: more)) with (s ++ String "," (join "," (t :: more)))%string.
  rewrite (parseInt_digits_then s "," _ Hd eq_refl (digits_then_comma_not_hex s _ Hd)).
  replace (nonempty s) with true; [reflexivity |].
  destruct s; [discriminate Hd | reflexivity].
Qed.

Lemma repeated_season_first_witness :
  handleRequest (GET "/api/episodes" [("season", QArr ["1"; "2"])]) sample =
  handleRequest (GET "/api/episodes" [("season", QStr "1")]) sample.
Proof.
  apply (repeated_season_first (GET "/api/episodes" [("season", QArr ["1"; "2"])])
           (GET "/api/episodes" [("season", QStr "1")]) sample "1" "2" []); reflexivity.
Defined.

(** ** A null element in a table *)

Lemma Array_find_throw (cb : value -> Result bool) (pre : list value) (x : value)
      (post : list value) (e : error) :
  (forall y, In y pre -> cb y = Ok false) ->
  cb x = Throw e ->
  Array_find cb (pre ++ x :: post) = Throw e.
Proof.
  intros Hpre Hx. induction pre as [| y pre IH]; simpl.
  - rewrite Hx. reflexivity.
  - rewrite (Hpre y (or_introl eq_refl)). simpl.
    apply IH. intros z Hz. apply Hpre. right. exact Hz.
Qed.

(** X20.  A [null] element in a table breaks every lookup that reaches it:
    if the elements before it are objects none of which has the id asked
    for, a GET request to [/api/<resource>/<segment>] throws a TypeError
    (reading [id] of null) and writes nothing, whether or not a record
    with that id comes later in the table. *)
Theorem by_id_null_element (r : resource) (req : Request) (w : World) (seg : string)
        (pre post : list value) :
  method req = "GET" ->
  pathParts_of req = ["api"; root_of r; seg] ->
  seg <> "random" ->
  table_of r w = (pre ++ VNull :: post)%list ->
  forallb is_object pre = true ->
  (forall n x, parseInt seg = NInt n -> In x pre -> ~ has_id n x) ->
  handleRequest req w = (Throw TypeError, w).
Proof.
  intros Hget Hpath Hseg Ht Hobj Hpre.
  rewrite (by_id_route req r seg Hget Hpath) by (apply String.eqb_neq; exact Hseg).
  assert (Hfind : Array_find (id_is (parseInt seg)) (table_of r w) = Throw TypeError).
  { rewrite Ht. apply Array_find_throw; [| reflexivity].
    intros y Hy. pose proof (proj1 (forallb_forall _ _) Hobj y Hy) as Ho.
    destruct (parseInt_range seg) as [-> | [n Hn]].
    - apply id_is_NaN. exact Ho.
    - rewrite Hn. apply id_is_miss; [exact Ho | apply (Hpre n y Hn Hy)]. }
  destruct r; simpl in Hfind; unfold by_id; rewrite bind_gets, Hfind; reflexivity.
Qed.

Lemma by_id_null_element_witness :
  handleRequest (GET "/api/quotes/2" [])
                (mkWorld [] [] [quote1; VNull; quote2] fresh (fun _ => 0%Q) 0) =
  (Throw TypeError, mkWorld [] [] [quote1; VNull; quote2] fresh (fun _ => 0%Q) 0).
Proof.
  assert (Hseg : "2" <> "random") by discriminate.
  apply (by_id_null_element Quotes (GET "/api/quotes/2" [])
           (mkWorld [] [] [quote1; VNull; quote2] fresh (fun _ => 0%Q) 0) "2"
           [quote1] [quote2] eq_refl eq_refl Hseg eq_refl eq_refl).
  intros n x Hn [<- | []] H. injection Hn as <-. discriminate H.
Defined.

(** ** Numbers under the search *)

Lemma includes_refl (s : string) : includes s s = true.
Proof.
  apply includes_spec. exists EmptyString, EmptyString.
  simpl. induction s as [| c s IH]; simpl; [reflexivity | rewrite <- IH; reflexivity].
Qed.

Lemma Z_toString_nonempty (n : Z) : nonempty (Z_toString n) = true.
Proof.
  destruct n as [| p | p]; [reflexivity | | reflexivity].
  unfold Z_toString. cbn [Z.to_int NilZero.string_of_int].
  pose proof (DecimalPos.Unsigned.to_uint_nonnil p) as Hd.
  destruct (Pos.to_uint p); [contradiction | ..]; reflexivity.
Qed.

(** X21.  The search reads numbers through their decimal form: a
    searchable record that has a field holding the integer [n], its [id]
    for one, is kept by the search for [n] written in decimal, as long as
    [n] is below 2^53 in magnitude (from there on a number is printed with
    the digits that identify it, not in full). *)
Theorem filterByQuery_number_field (item : value) (props : list (string * value)) (n : Z) :
  item = VObj props ->
  is_record item = true ->
  In (VNum (NInt n)) (map snd props) ->
  Z.abs n < 2 ^ 53 ->
  filterByQuery [item] (QStr (Z_toString n)) = Ok [item].
Proof.
  intros -> Hr Hin Hn. apply Z.ltb_lt in Hn.
  rewrite (filterByQuery_records [VObj props] (Z_toString n) (Z_toString_nonempty n))
    by (intros x [<- | []]; exact Hr).
  cbn [filter]. replace (matchesb (Z_toString n) (VObj props)) with true; [reflexivity |].
  symmetry. apply existsb_exists. exists (VNum (NInt n)). split; [exact Hin |].
  unfold field_matchesb. cbn [toString_method ToString Number_toString].
  rewrite Hn. apply includes_refl.
Qed.

Lemma filterByQuery_number_field_witness :
  filterByQuery [stake_out] (QStr (Z_toString 3)) = Ok [stake_out].
Proof.
  apply (filterByQuery_number_field stake_out
           [("id", VNum (NInt 3)); ("season", VNum (NInt 1)); ("title", VStr "The Stake Out")] 3);
    [reflexivity | reflexivity | left; reflexivity | reflexivity].
Defined.

(** * Totality of request handling *)

Lemma well_answered_sendJSON (props : list (string * value)) (w : World) :
  well_answered (sendJSON (VObj props) 200 w).
Proof.
  rewrite sendJSON_object. split; [reflexivity | split; [reflexivity |]].
  exists 200, (VObj props). split; [reflexivity | split; [reflexivity | left; reflexivity]].
Qed.

Lemma well_answered_sendError (message : string) (statusCode : Z) (w : World) :
  statusCode = 400 \/ statusCode = 404 ->
  well_answered (sendError message statusCode w).
Proof.
  intros Hs. rewrite sendError_run. split; [reflexivity | split; [reflexivity |]].
  exists statusCode, (error_body message).
  split; [reflexivity | split; [reflexivity | right]]. split; [exact Hs |].
  exists message. reflexivity.
Qed.

(** The random pick on a table of objects that is not empty. *)
Lemma well_answered_random (array : list value) (w : World) :
  array <> [] ->
  (forall x, In x array -> is_object x = true) ->
  (0 <= rng w (drawn w))%Q ->
  (rng w (drawn w) < 1)%Q ->
  well_answered (bind (getRandomItem array) (fun item => sendJSON item 200) w).
Proof.
  intros Hne Hobj H0 H1.
  set (i := Qfloor (rng w (drawn w) * inject_Z (Z.of_nat (List.length array)))).
  assert (Hin : In (index array i) array).
  { apply index_In. apply random_index_bounds; try assumption.
    destruct array; [contradiction | simpl; lia]. }
  destruct (is_object_inv _ (Hobj _ Hin)) as [props Hprops].
  change (bind (getRandomItem array) (fun item => sendJSON item 200) w)
    with (sendJSON (index array i) 200
            (mkWorld (characters w) (episodes w) (quotes w) (res w) (rng w) (S (drawn w)))).
  rewrite Hprops. apply well_answered_sendJSON.
Qed.

Lemma filterByQuery_total (array : list value) (q : qvalue) :
  single q = true ->
  (qtruthy q = true -> forall x, In x array -> is_record x = true) ->
  exists l, filterByQuery array q = Ok l /\ forall x, In x l -> In x array.
Proof.
  intros Hq Hr. destruct (qtruthy q) eqn:Ht.
  - destruct q as [| s | ss]; try discriminate.
    exists (filter (matchesb s) array). split.
    + apply filterByQuery_records; [exact Ht | exact (Hr eq_refl)].
    + intros x Hx. apply filter_In in Hx. apply Hx.
  - exists array. split; [apply filterByQuery_falsy; exact Ht | auto].
Qed.

Lemma collection_answered (name : string) (array : list value) (q : qvalue) (w : World) :
  single q = true ->
  (qtruthy q = true -> forall x, In x array -> is_record x = true) ->
  well_answered
    (bind (lift (filterByQuery array q))
          (fun filtered =>
             sendJSON (VObj [("total", length_of filtered); (name, VArr filtered)]) 200) w).
Proof.
  intros Hq Hr. destruct (filterByQuery_total array q Hq Hr) as [l [-> _]].
  rewrite bind_lift_Ok. apply well_answered_sendJSON.
Qed.

Lemma Array_filter_total {A : Type} (cb : A -> Result bool) (l : list A) :
  (forall x, In x l -> exists b, cb x = Ok b) ->
  exists l', Array_filter cb l = Ok l' /\ forall x, In x l' -> In x l.
Proof.
  intros Hl. induction l as [| x l IH]; simpl.
  - exists []. split; [reflexivity | auto].
  - destruct (Hl x (or_introl eq_refl)) as [b ->].
    destruct IH as [l' [-> Hin]]; [intros z Hz; apply Hl; right; exact Hz |].
    simpl. destruct b; eexists; (split; [reflexivity |]).
    + intros z [<- | Hz]; [left; reflexivity | right; apply Hin; exact Hz].
    + intros z Hz. right. apply Hin. exact Hz.
Qed.

Lemma Array_find_total (cb : value -> Result bool) (l : list value) :
  (forall x, In x l -> exists b, cb x = Ok b) ->
  exists v, Array_find cb l = Ok v /\ (v = VUndefined \/ In v l).
Proof.
  intros Hl. induction l as [| x l IH]; simpl.
  - exists VUndefined. split; [reflexivity | left; reflexivity].
  - destruct (Hl x (or_introl eq_refl)) as [b ->]. simpl. destruct b.
    + exists x. split; [reflexivity | right; left; reflexivity].
    + destruct IH as [v [-> Hv]]; [intros z Hz; apply Hl; right; exact Hz |].
      exists v. split; [reflexivity |]. destruct Hv; [left | right; right]; assumption.
Qed.

Lemma id_is_total (id : number) (v : value) :
  is_object v = true -> exists b, id_is id v = Ok b.
Proof.
  intros Hr. apply is_object_inv in Hr as [props ->].
  unfold id_is. simpl. destruct (lookup props "id"); simpl; eauto.
Qed.

Lemma by_id_total (r : resource) (id : number) (w : World) :
  wf_dataset w -> well_answered (by_id r id w).
Proof.
  intros Hwf.
  destruct (Array_find_total (id_is id) (table_of r w)) as [v [Hfind Hv]].
  { intros x Hx. apply id_is_total. apply (wf_table w r); assumption. }
  destruct Hv as [-> | Hin].
  - destruct r; simpl in Hfind; unfold by_id; rewrite bind_gets, Hfind, bind_lift_Ok;
      apply well_answered_sendError; right; reflexivity.
  - destruct (is_object_inv v (wf_table w r v Hwf Hin)) as [props ->].
    destruct r; simpl in Hfind, Hin; unfold by_id; rewrite bind_gets, Hfind, bind_lift_Ok;
      cbn [ToBoolean]; try apply well_answered_sendJSON.
    destruct (wf_character_name w props Hwf Hin) as [name Hname].
    rewrite bind_gets.
    rewrite (Array_filter_pure _ (mentionsb name))
      by (intros qt Hqt; apply names_character_pure;
          [exact Hname | exact (proj1 (forallb_forall _ _) (proj2 (proj2 Hwf)) qt Hqt)]).
    rewrite bind_lift_Ok. apply well_answered_sendJSON.
Qed.

(** The three hypotheses of totality, for one resource: what its
    collection route needs of the [search] parameter and of the records it
    then reads, and what its random route needs of the table and of the
    random number. *)
Section ResourceRoutes.

Variables (r : resource) (q : list (string * qvalue)) (w : World).
Hypothesis Hwf : wf_dataset w.

Lemma collection_of_resource (name : string) (array : list value) :
  (single (query_get q "search") = true /\
   (qtruthy (query_get q "search") = true -> forallb is_record (table_of r w) = true)) ->
  (forall x, In x array -> In x (table_of r w)) ->
  well_answered
    (bind (lift (filterByQuery array (query_get q "search")))
          (fun filtered =>
             sendJSON (VObj [("total", length_of filtered); (name, VArr filtered)]) 200) w).
Proof.
  intros [Hs Hrec] Hsub. apply collection_answered; [exact Hs |].
  intros Ht x Hx. exact (proj1 (forallb_forall _ _) (Hrec Ht) x (Hsub x Hx)).
Qed.

Lemma random_of_resource :
  (table_of r w <> [] /\ (0 <= rng w (drawn w))%Q /\ (rng w (drawn w) < 1)%Q) ->
  well_answered
    (bind (getRandomItem (table_of r w)) (fun item => sendJSON item 200) w).
Proof.
  intros (Hne & H0 & H1). apply well_answered_random; try assumption.
  intros x Hx. apply (wf_table w r); assumption.
Qed.

End ResourceRoutes.

Section HandlerTotality.

Variables (a b : string) (rest : list string) (q : list (string * qvalue)) (w : World).
Hypothesis Hwf : wf_dataset w.

Lemma handleCharacters_total :
  (rest = [] ->
   single (query_get q "search") = true /\
   (qtruthy (query_get q "search") = true -> forallb is_record (table_of Characters w) = true)) ->
  (rest = ["random"] ->
   table_of Characters w <> [] /\ (0 <= rng w (drawn w))%Q /\ (rng w (drawn w) < 1)%Q) ->
  well_answered (handleCharacters (a :: b :: rest) q w).
Proof.
  intros Hc Hr. destruct rest as [| seg [| d rest']];
    try (apply well_answered_sendError; right; reflexivity).
  - unfold handleCharacters. rewrite bind_gets.
    apply (collection_of_resource Characters); [exact (Hc eq_refl) | auto].
  - unfold handleCharacters. destruct (String.eqb seg "random") eqn:Hseg.
    + apply String.eqb_eq in Hseg. subst seg. rewrite bind_gets.
      apply (random_of_resource Characters w Hwf (Hr eq_refl)).
    + apply (by_id_total Characters (parseInt seg) w Hwf).
Qed.

Lemma handleEpisodes_total :
  (rest = [] ->
   single (query_get q "search") = true /\
   (qtruthy (query_get q "search") = true -> forallb is_record (table_of Episodes w) = true)) ->
  (rest = ["random"] ->
   table_of Episodes w <> [] /\ (0 <= rng w (drawn w))%Q /\ (rng w (drawn w) < 1)%Q) ->
  well_answered (handleEpisodes (a :: b :: rest) q w).
Proof.
  intros Hc Hr. destruct rest as [| seg [| d rest']];
    try (apply well_answered_sendError; right; reflexivity).
  - unfold handleEpisodes. rewrite bind_gets.
    destruct (qtruthy (query_get q "season")).
    + destruct (Array_filter_total
                  (season_is (parseInt (qToString (query_get q "season")))) (episodes w))
        as [l [Hl Hin]].
      { intros x Hx.
        destruct (is_object_inv x (wf_table w Episodes x Hwf Hx)) as [props ->].
        unfold season_is. simpl. destruct (lookup props "season"); simpl; eauto. }
      unfold season_is in Hl. unfold bind at 1. unfold lift at 1. rewrite Hl.
      apply (collection_of_resource Episodes); [exact (Hc eq_refl) | exact Hin].
    + unfold bind at 1. unfold ret.
      apply (collection_of_resource Episodes); [exact (Hc eq_refl) | auto].
  - unfold handleEpisodes. destruct (String.eqb seg "random") eqn:Hseg.
    + apply String.eqb_eq in Hseg. subst seg. rewrite bind_gets.
      apply (random_of_resource Episodes w Hwf (Hr eq_refl)).
    + apply (by_id_total Episodes (parseInt seg) w Hwf).
Qed.

Lemma handleQuotes_total :
  (rest = [] ->
   single (query_get q "search") = true /\
   (qtruthy (query_get q "search") = true -> forallb is_record (table_of Quotes w) = true)) ->
  (rest = ["random"] ->
   table_of Quotes w <> [] /\ (0 <= rng w (drawn w))%Q /\ (rng w (drawn w) < 1)%Q) ->
  (rest = [] -> single (query_get q "character") = true) ->
  well_answered (handleQuotes (a :: b :: rest) q w).
Proof.
  intros Hc Hr Hwho. destruct rest as [| seg [| d rest']];
    try (apply well_answered_sendError; right; reflexivity).
  - unfold handleQuotes. rewrite bind_gets.
    specialize (Hwho eq_refl).
    destruct (qtruthy (query_get q "character")) eqn:Ht.
    + destruct (query_get q "character") as [| s | ss]; try discriminate.
      destruct (Array_filter_total
                  (fun qt => (let? who := get_prop qt "character" in
                              let? hay := toLowerCase_method who in
                              let? needle := qtoLowerCase (QStr s) in
                              Ok (includes hay needle))%result) (quotes w))
        as [l [Hl Hin]].
      { intros x Hx.
        pose proof (proj1 (forallb_forall _ _) (proj2 (proj2 Hwf)) x Hx) as Hq.
        destruct x as [| | | | | | props]; try discriminate Hq. simpl in *.
        destruct (lookup props "character") as [[| | | | who | |] |]; try discriminate Hq.
        simpl. eauto. }
      unfold bind at 1. unfold lift at 1. rewrite Hl.
      apply (collection_of_resource Quotes); [exact (Hc eq_refl) | exact Hin].
    + unfold bind at 1. unfold ret.
      apply (collection_of_resource Quotes); [exact (Hc eq_refl) | auto].
  - unfold handleQuotes. destruct (String.eqb seg "random") eqn:Hseg.
    + apply String.eqb_eq in Hseg. subst seg. rewrite bind_gets.
      apply (random_of_resource Quotes w Hwf (Hr eq_refl)).
    + apply (by_id_total Quotes (parseInt seg) w Hwf).
Qed.

Lemma handleStats_total : well_answered (handleStats w).
Proof.
  destruct Hwf as (_ & He & _). rewrite (handleStats_run w He). apply well_answered_sendJSON.
Qed.

End HandlerTotality.

(** C3, amended.  Let the dataset follow the data model, and let a GET
    request have a target with a path.  Suppose that
    - on a collection route ([/api/characters], [/api/episodes],
      [/api/quotes]) the [search] parameter is absent or given once and,
      when it is not empty, the records of that table have no null field
      and only fields with a string form;
    - on [/api/quotes] the [character] parameter is absent or given once;
    - on a random route the table is not empty and [Math.random] yields a
      number of the interval from 0 (included) to 1 (excluded).
    Then the request is handled to the end without an exception, and the
    response is complete JSON with a body: status 200 with the data, or
    status 400 or 404 with a body [{error: message}]. *)
Theorem request_handling_total (req : Request) (w : World) (path : string) :
  wf_dataset w ->
  method req = "GET" ->
  pathname req = Some path ->
  (forall r, pathParts_of req = ["api"; root_of r] ->
     single (query_get (query req) "search") = true /\
     (qtruthy (query_get (query req) "search") = true ->
      forallb is_record (table_of r w) = true)) ->
  (pathParts_of req = ["api"; "quotes"] ->
     single (query_get (query req) "character") = true) ->
  (forall r, pathParts_of req = ["api"; root_of r; "random"] ->
     table_of r w <> [] /\ (0 <= rng w (drawn w))%Q /\ (rng w (drawn w) < 1)%Q) ->
  well_answered (handleRequest req w).
Proof.
  intros Hwf Hget Hpath Hcoll Hwho Hrand. rewrite (handleRequest_GET req Hget).
  destruct (pathParts_of req) as [| root [| endpoint rest]] eqn:Hparts.
  - rewrite Hpath. apply well_answered_sendJSON.
  - destruct (String.eqb root "api"); apply well_answered_sendError; auto.
  - destruct (String.eqb root "api") eqn:Hroot; [| apply well_answered_sendError; auto].
    apply String.eqb_eq in Hroot. subst root.
    destruct (String.eqb endpoint "characters") eqn:Hc.
    { apply String.eqb_eq in Hc. subst endpoint.
      apply handleCharacters_total; [exact Hwf | |]; intros ->.
      - exact (Hcoll Characters eq_refl).
      - exact (Hrand Characters eq_refl). }
    destruct (String.eqb endpoint "episodes") eqn:He.
    { apply String.eqb_eq in He. subst endpoint.
      apply handleEpisodes_total; [exact Hwf | |]; intros ->.
      - exact (Hcoll Episodes eq_refl).
      - exact (Hrand Episodes eq_refl). }
    destruct (String.eqb endpoint "quotes") eqn:Hq.
    { apply String.eqb_eq in Hq. subst endpoint.
      apply handleQuotes_total; [exact Hwf | | |]; intros ->.
      - exact (Hcoll Quotes eq_refl).
      - exact (Hrand Quotes eq_refl).
      - exact (Hwho eq_refl). }
    destruct (String.eqb endpoint "stats"); [apply handleStats_total; exact Hwf |].
    apply well_answered_sendError; auto.
Qed.

Lemma request_handling_total_witness :
  well_answered
    (handleRequest (GET "/api/quotes" [("character", QStr "george"); ("search", QStr "pool")])
                   sample).
Proof.
  apply (request_handling_total
           (GET "/api/quotes" [("character", QStr "george"); ("search", QStr "pool")])
           sample "/api/quotes" wf_sample).
  - reflexivity.
  - reflexivity.
  - intros r _. split; [reflexivity | intros _; destruct r; reflexivity].
  - intros _. reflexivity.
  - intros r H. destruct r; discriminate H.
Defined.
